(** * Image delivery middlewares of the server workspace

    A shallow embedding of
      - [workspaces/server/src/middlewares/compressMiddleware.ts]
        (the zstd compression stage, and the image route [imageApp] with its
        in-memory [IMAGE_CACHE]), and
      - the [cacheControlMiddleware] that sets the [Cache-Control] header.

    Conventions of the embedding:
      - JavaScript strings are [string]; byte buffers are [list byte];
      - JavaScript numbers that carry a time stamp or a length are [Z];
        the requested width and height and the scale factor are rationals
        [Q], with the rounding of every division and product kept as a
        parameter of the arithmetic;
      - a [Map] is an association list in insertion order with unique keys;
      - [Date.now()] is an explicit argument at every place the source reads
        the clock;
      - library calls (codecs, image-js resampling, [@hapi/accept], zstd) are
        section variables. *)

From Stdlib Require Import ZArith QArith Qround Qminmax Qpower Lqa.
From Stdlib Require Import List String Ascii DecimalString DecimalPos Bool Lia.
Import ListNotations.

Local Open Scope string_scope.
Local Open Scope Z_scope.

Definition bytes := list Byte.byte.

(* ------------------------------------------------------------------ *)
(** ** JavaScript string primitives used by the middlewares            *)
(* ------------------------------------------------------------------ *)

Module Js.

(** [s.startsWith(p)] *)
Fixpoint startsWith (s p : string) : bool :=
  match p with
  | EmptyString => true
  | String c p' =>
      match s with
      | EmptyString => false
      | String d s' => Ascii.eqb c d && startsWith s' p'
      end
  end.

(** [s.includes(sub)] *)
Fixpoint includes (s sub : string) : bool :=
  startsWith s sub ||
  match s with
  | EmptyString => false
  | String _ s' => includes s' sub
  end.

(** [s.slice(1)] *)
Definition slice1 (s : string) : string :=
  match s with
  | EmptyString => EmptyString
  | String _ s' => s'
  end.

(** Truthiness of an optional string: [undefined] and [''] are falsy. *)
Definition truthy (o : option string) : bool :=
  match o with
  | None => false
  | Some s => negb (s =? "")%string
  end.

(** [o || d] on an optional string. *)
Definition orElse (o : option string) (d : string) : string :=
  match o with
  | None => d
  | Some s => if (s =? "")%string then d else s
  end.

(** [o ?? d] *)
Definition nullish {A : Type} (o : option A) (d : A) : A :=
  match o with
  | None => d
  | Some a => a
  end.

(** [o == null] *)
Definition isNull {A : Type} (o : option A) : bool :=
  match o with
  | None => true
  | Some _ => false
  end.

End Js.

(* ------------------------------------------------------------------ *)
(** ** Resize arithmetic of [imageApp] (lines 238-245)                 *)
(* ------------------------------------------------------------------ *)

Module Resize.

Local Open Scope Q_scope.

(** The rationals that a binary64 number holds exactly. *)
Definition binary64 (q : Q) : Prop :=
  exists m e : Z,
    (Z.abs m < 2 ^ 53)%Z /\ (-1074 <= e <= 971)%Z /\ q == inject_Z m * Qpower 2 e.

(** The arithmetic of JavaScript numbers: an operation returns the rounding
    of its exact result, and rounding leaves alone what binary64 holds
    exactly. *)
Record Float64 := mkFloat64 {
  rnd : Q -> Q;
  rnd_proper : forall x y, x == y -> rnd x == rnd y;
  rnd_exact : forall q, binary64 q -> rnd q == q
}.

(** [x / y] and [x * y] on numbers, for a divisor that is not zero; the
    sides of a decoded image are positive. *)
Definition fdiv (F : Float64) (x y : Q) : Q := rnd F (x / y).
Definition fmul (F : Float64) (x y : Q) : Q := rnd F (x * y).

(** [Math.max((width ?? 0) / image.width, (height ?? 0) / image.height)] *)
Definition maxRatio (F : Float64) (W H : Z) (width height : option Q) : Q :=
  Qmax (fdiv F (Js.nullish width 0) (inject_Z W))
       (fdiv F (Js.nullish height 0) (inject_Z H)).

(** [const scale = Math.max(...) || 1]: a zero maximum is falsy. *)
Definition scale (F : Float64) (W H : Z) (width height : option Q) : Q :=
  let m := maxRatio F W H width height in
  if Qeq_bool m 0 then 1 else m.

(** The [width] and [height] handed to [image.resize]:
    [Math.ceil(image.width * scale)] and [Math.ceil(image.height * scale)]. *)
Definition resizeWidth (F : Float64) (W H : Z) (width height : option Q) : Z :=
  Qceiling (fmul F (inject_Z W) (scale F W H width height)).

Definition resizeHeight (F : Float64) (W H : Z) (width height : option Q) : Z :=
  Qceiling (fmul F (inject_Z H) (scale F W H width height)).

Definition resizeDims (F : Float64) (W H : Z) (width height : option Q) : Z * Z :=
  (resizeWidth F W H width height, resizeHeight F W H width height).

(** The scale factor in the words of the specification: the maximum of the
    two ratios, an absent dimension counting as 0, and 1 when both are
    absent. *)
Definition spec_scale (F : Float64) (W H : Z) (width height : option Q) : Q :=
  match width, height with
  | None, None => 1
  | _, _ => maxRatio F W H width height
  end.

Definition spec_resizeDims (F : Float64) (W H : Z) (width height : option Q)
  : Z * Z :=
  (Qceiling (fmul F (inject_Z W) (spec_scale F W H width height)),
   Qceiling (fmul F (inject_Z H) (spec_scale F W H width height))).

(** A requested dimension that is absent or zero. *)
Definition absentOrZero (o : option Q) : Prop :=
  match o with
  | None => True
  | Some q => q == 0
  end.

(** Arithmetic without rounding error, the simplest instance. *)
Definition exact : Float64 :=
  mkFloat64 (fun q => q) (fun x y E => E) (fun q _ => Qeq_refl q).

(** The binary64 number nearest to 7/200, which binary64 does not hold. *)
Definition nearest_7_200 : Q := 1261007895663739 # 36028797018963968.

Definition roundAt_7_200 (q : Q) : Q :=
  if Qeq_bool q (7 # 200) then nearest_7_200 else q.

(** An arithmetic that rounds 7/200 as binary64 does and keeps every other
    value: enough to follow [200 * (7 / 200)] up to [Math.ceil], since the
    product lies above 7 before and after its own rounding.  The second law
    holds because no binary64 number equals 7/200: a power of two is no
    multiple of 5. *)
Definition nearest7 : Float64.
Proof.
  refine (mkFloat64 roundAt_7_200 _ _).
  - intros x y E. unfold roundAt_7_200.
    destruct (Qeq_bool x (7 # 200)) eqn:X, (Qeq_bool y (7 # 200)) eqn:Y.
    + reflexivity.
    + apply Qeq_bool_iff in X. apply Qeq_bool_neq in Y. rewrite <- E in Y.
      contradiction.
    + apply Qeq_bool_iff in Y. apply Qeq_bool_neq in X. rewrite E in X.
      contradiction.
    + exact E.
  - intros q B. unfold roundAt_7_200.
    destruct (Qeq_bool q (7 # 200)) eqn:X; [|reflexivity].
    apply Qeq_bool_iff in X. exfalso.
    assert (Five : forall k : Z, (0 <= k)%Z -> ((2 ^ k) mod 5 <> 0)%Z).
    { apply natlike_ind; [discriminate|].
      intros k K IH. rewrite Z.pow_succ_r by exact K.
      remember (2 ^ k)%Z as P. clear HeqP.
      pose proof (Z.div_mod P 5 ltac:(lia)).
      pose proof (Z.mod_pos_bound P 5 ltac:(lia)).
      pose proof (Z.div_mod (2 * P) 5 ltac:(lia)).
      pose proof (Z.mod_pos_bound (2 * P) 5 ltac:(lia)).
      lia. }
    destruct B as [m [e [_ [_ E]]]]. rewrite X in E.
    destruct (Z_lt_le_dec e 0) as [N|P].
    + assert (E2 : 2 ^ e == / inject_Z (2 ^ (- e))).
      { rewrite Zpower_Qpower by lia. rewrite <- Qpower_opp.
        now replace (- - e)%Z with e by lia. }
      rewrite E2 in E.
      pose proof (Five (- e)%Z ltac:(lia)) as M.
      assert (Pp : (0 < 2 ^ (- e))%Z) by (apply Z.pow_pos_nonneg; lia).
      remember (2 ^ (- e))%Z as P. clear HeqP.
      assert (E3 : (7 # 200) * inject_Z P == inject_Z m).
      { rewrite E. field. intro Z0. unfold Qeq in Z0. simpl in Z0. lia. }
      unfold Qeq, Qmult, inject_Z in E3. cbn [Qnum Qden] in E3.
      pose proof (Z.div_mod P 5 ltac:(lia)).
      pose proof (Z.mod_pos_bound P 5 ltac:(lia)).
      lia.
    + assert (E2 : 2 ^ e == inject_Z (2 ^ e))
        by (rewrite Zpower_Qpower by exact P; reflexivity).
      rewrite E2, <- inject_Z_mult in E.
      remember (m * 2 ^ e)%Z as n. clear Heqn.
      unfold Qeq, inject_Z in E. cbn [Qnum Qden] in E. lia.
Defined.

(** The unit roundoff of binary64, 2^-53. *)
Definition eps : Q := 1 # 9007199254740992.

(** Rounding to the nearest binary64 number changes a value of the normal
    range, here a positive one between 2^-1022 and 2^1023, by at most the
    fraction [eps] of it. *)
Definition accurate (F : Float64) : Prop :=
  forall x, Qpower 2 (-1022) <= x <= Qpower 2 1023 ->
            (1 - eps) * x <= rnd F x <= (1 + eps) * x.

(** Sizes are taken below 2^16 pixels. *)
Definition sizeLimit : Z := 65536.

(** A requested dimension that is absent or a whole number of pixels below
    the limit. *)
Definition wholeSize (o : option Q) : Prop :=
  match o with
  | None => True
  | Some q => exists n : Z, (0 <= n < sizeLimit)%Z /\ q == inject_Z n
  end.

End Resize.

(* ------------------------------------------------------------------ *)
(** ** [parseInt] and the [Headers] object                             *)
(* ------------------------------------------------------------------ *)

Module Num.

(** White space skipped by [parseInt] (the ASCII part of StrWhiteSpaceChar). *)
Definition isWhite (c : ascii) : bool :=
  let n := nat_of_ascii c in
  ((9 <=? n) && (n <=? 13))%nat || (n =? 32)%nat.

Fixpoint trimStart (s : string) : string :=
  match s with
  | EmptyString => EmptyString
  | String c s' => if isWhite c then trimStart s' else s
  end.

Definition digitValue (c : ascii) : option Z :=
  let n := Z.of_nat (nat_of_ascii c) in
  if (48 <=? n) && (n <=? 57) then Some (n - 48)
  else if (97 <=? n) && (n <=? 102) then Some (n - 87)
  else if (65 <=? n) && (n <=? 70) then Some (n - 55)
  else None.

(** The longest prefix of radix-[R] digits, as a number; [acc] is [None]
    until a first digit has been read. *)
Fixpoint digits (R : Z) (s : string) (acc : option Z) : option Z :=
  match s with
  | EmptyString => acc
  | String c s' =>
      match digitValue c with
      | Some d =>
          if d <? R then digits R s' (Some (R * Js.nullish acc 0 + d)) else acc
      | None => acc
      end
  end.

(** [parseInt(s)] with no radix argument; [None] is [NaN]. *)
Definition parseInt (s : string) : option Z :=
  let s1 := trimStart s in
  let '(sign, s2) :=
    match s1 with
    | String "-" r => (-1, r)
    | String "+" r => (1, r)
    | _ => (1, s1)
    end in
  let '(R, s3) :=
    match s2 with
    | String "0" (String "x" r) => (16, r)
    | String "0" (String "X" r) => (16, r)
    | _ => (10, s2)
    end in
  option_map (Z.mul sign) (digits R s3 None).

(** [a > lo && a < hi] on a possibly-NaN number. *)
Definition strictlyBetween (lo hi : Z) (a : option Z) : bool :=
  match a with
  | None => false
  | Some n => (lo <? n) && (n <? hi)
  end.

End Num.

Module Headers.

(** Header names are case-insensitive: every operation lower-cases its
    name argument, and the list holds lower-case names, each at most once. *)
Definition t := list (string * string).

Definition lowerChar (c : ascii) : ascii :=
  let n := nat_of_ascii c in
  if ((65 <=? n) && (n <=? 90))%nat then ascii_of_nat (n + 32) else c.

Fixpoint lower (s : string) : string :=
  match s with
  | EmptyString => EmptyString
  | String c s' => String (lowerChar c) (lower s')
  end.

Fixpoint find (k : string) (h : t) : option string :=
  match h with
  | [] => None
  | (k', v) :: h' => if (k =? k')%string then Some v else find k h'
  end.

Fixpoint remove (k : string) (h : t) : t :=
  match h with
  | [] => []
  | (k', v) :: h' => if (k =? k')%string then remove k h' else (k', v) :: remove k h'
  end.

Fixpoint update (k : string) (f : option string -> string) (h : t) : t :=
  match h with
  | [] => [(k, f None)]
  | (k', v) :: h' =>
      if (k =? k')%string then (k', f (Some v)) :: h' else (k', v) :: update k f h'
  end.

(** [headers.get(name)] *)
Definition get (name : string) (h : t) : option string := find (lower name) h.

(** [headers.set(name, value)] *)
Definition set (name value : string) (h : t) : t :=
  update (lower name) (fun _ => value) h.

(** [headers.append(name, value)]: joins with the present value by [", "]. *)
Definition append (name value : string) (h : t) : t :=
  update (lower name)
    (fun old => match old with
                | None => value
                | Some v => v ++ ", " ++ value
                end) h.

(** [headers.delete(name)] *)
Definition delete (name : string) (h : t) : t := remove (lower name) h.

End Headers.

(* ------------------------------------------------------------------ *)
(** ** The two post-processing middlewares                             *)
(* ------------------------------------------------------------------ *)

Module Http.

(** A response as the middlewares see it: the body is the sequence of
    chunks its stream yields, [None] for a null body. *)
Record Response := mkResponse {
  status : Z;
  headers : Headers.t;
  body : option (list bytes)
}.

Definition withHeaders (f : Headers.t -> Headers.t) (r : Response) : Response :=
  mkResponse (status r) (f (headers r)) (body r).

End Http.

Module Compress.
Import Http.

Section WithLibraries.

(** [encoding(header, preferences)] of [@hapi/accept]. *)
Variable encoding : option string -> list string -> string.
(** [ZstdStream.compress(chunk, level, false)] *)
Variable zstdCompress : bytes -> Z -> bytes.

Definition compressionLevel (contentType : string) : Z :=
  if Js.includes contentType "json" || Js.includes contentType "javascript"
     || Js.includes contentType "css"
  then 6
  else if Js.includes contentType "html" then 5
  else 3.

Definition contentTypeOf (res : Response) : string :=
  Js.orElse (Headers.get "Content-Type" (headers res)) "".

Definition contentLengthOf (res : Response) : option Z :=
  Num.parseInt (Js.orElse (Headers.get "Content-Length" (headers res)) "0").

Definition markNoTransform (res : Response) : Response :=
  withHeaders (Headers.append "Cache-Control" "no-transform") res.

(** The [case 'zstd'] arm: pipe the body through the per-chunk transform,
    then rewrite the headers. *)
Definition zstdResponse (res : Response) : Response :=
  let level := compressionLevel (contentTypeOf res) in
  let piped :=
    mkResponse (status res) (headers res)
      (option_map (List.map (fun chunk => zstdCompress chunk level)) (body res)) in
  withHeaders
    (fun h => Headers.set "Content-Encoding" "zstd"
                (Headers.append "Cache-Control" "no-transform"
                   (Headers.delete "Content-Length" h)))
    piped.

(** [compressMiddleware], applied to the response [res] that [next()] left
    in the context; [acceptEncoding] is the request's [Accept-Encoding]. *)
Definition compressMiddleware (acceptEncoding : option string) (res : Response)
  : Response :=
  let accept := encoding acceptEncoding ["zstd"] in
  let contentType := contentTypeOf res in
  let contentLength := contentLengthOf res in
  if Num.strictlyBetween 0 1024 contentLength then markNoTransform res
  else if Js.startsWith contentType "image/" then markNoTransform res
  else if (accept =? "zstd")%string then zstdResponse res
  else markNoTransform res.

End WithLibraries.

(** The [Cache-Control] value after [no-transform] has been appended to the
    value [old]. *)
Definition appended (old : option string) : string :=
  match old with
  | None => "no-transform"
  | Some v => v ++ ", " ++ "no-transform"
  end.

End Compress.

Module CacheControl.
Import Http.

Definition LONG_LIVED : string := "public, max-age=31536000, immutable".
Definition REVALIDATE : string := "private, max-age=0, must-revalidate".
Definition NO_STORE : string := "private, no-store".

(** The directive chosen by the [if]/[else if] chain. *)
Definition directive (url contentType : string) : string :=
  if Js.startsWith contentType "image/" || Js.includes url "/images/"
     || Js.includes url "/assets/"
  then LONG_LIVED
  else if Js.includes contentType "javascript" || Js.includes contentType "css"
  then LONG_LIVED
  else if Js.includes contentType "json" || Js.includes contentType "html"
  then REVALIDATE
  else NO_STORE.

(** [cacheControlMiddleware], applied to the response left by [next()];
    [url] is [c.req.url]. *)
Definition cacheControlMiddleware (url : string) (res : Response) : Response :=
  let contentType := Js.orElse (Headers.get "Content-Type" (headers res)) "" in
  withHeaders (Headers.set "Cache-Control" (directive url contentType)) res.

End CacheControl.

(* ------------------------------------------------------------------ *)
(** ** [IMAGE_CACHE]: the in-memory response cache                     *)
(* ------------------------------------------------------------------ *)

Module ImageCache.

Record CacheEntry := mkEntry {
  data : bytes;
  mimeType : string;
  timestamp : Z
}.

(** [Map<string, CacheEntry>], iterated in insertion order. *)
Definition Cache := list (string * CacheEntry).

Definition MAX_CACHE_SIZE : Z := 100.
Definition CACHE_TTL : Z := 60 * 60 * 1000.

Definition size (m : Cache) : Z := Z.of_nat (List.length m).

(** [Map.prototype.get] *)
Fixpoint get (k : string) (m : Cache) : option CacheEntry :=
  match m with
  | [] => None
  | (k', e) :: m' => if (k =? k')%string then Some e else get k m'
  end.

(** [Map.prototype.set]: an existing key keeps its position. *)
Fixpoint set (k : string) (e : CacheEntry) (m : Cache) : Cache :=
  match m with
  | [] => [(k, e)]
  | (k', e') :: m' =>
      if (k =? k')%string then (k', e) :: m' else (k', e') :: set k e m'
  end.

(** [Map.prototype.delete] *)
Fixpoint delete (k : string) (m : Cache) : Cache :=
  match m with
  | [] => []
  | (k', e') :: m' =>
      if (k =? k')%string then m' else (k', e') :: delete k m'
  end.

(** The [for ... of IMAGE_CACHE.entries()] loop of [evictOldestEntry],
    started from the current [oldestKey] and [oldestTime]. *)
Fixpoint scanOldest (m : Cache) (oldestKey : option string) (oldestTime : Z)
  : option string :=
  match m with
  | [] => oldestKey
  | (key, entry) :: m' =>
      if timestamp entry <? oldestTime
      then scanOldest m' (Some key) (timestamp entry)
      else scanOldest m' oldestKey oldestTime
  end.

(** [evictOldestEntry()], with [now] the value of [Date.now()] that
    initialises [oldestTime]. *)
Definition evictOldestEntry (now : Z) (m : Cache) : Cache :=
  let oldestKey := scanOldest m None now in
  if Js.truthy oldestKey
  then match oldestKey with
       | Some k => delete k m
       | None => m
       end
  else m.

(** The cache check of the route (lines 217-219):
    [cached && (Date.now() - cached.timestamp) < CACHE_TTL]. *)
Definition lookup (now : Z) (k : string) (m : Cache) : option CacheEntry :=
  match get k m with
  | Some cached => if now - timestamp cached <? CACHE_TTL then Some cached else None
  | None => None
  end.

(** The cache population of the route (lines 254-263); [nowEvict] is read by
    [evictOldestEntry], [nowStore] stamps the new entry. *)
Definition store (nowEvict nowStore : Z) (k : string) (payload : bytes)
    (mime : string) (m : Cache) : Cache :=
  let m1 := if MAX_CACHE_SIZE <=? size m then evictOldestEntry nowEvict m else m in
  set k (mkEntry payload mime nowStore) m1.

(** Properties of cache states used in the statements below. *)

Definition keys (m : Cache) : list string := List.map fst m.

(** Some entry is strictly older than [now]. *)
Definition hasOlder (now : Z) (m : Cache) : Prop :=
  exists k e, In (k, e) m /\ timestamp e < now.

(** [k] carries a smallest time stamp of [m]. *)
Definition isOldest (k : string) (m : Cache) : Prop :=
  exists e, get k m = Some e /\
            forall k' e', In (k', e') m -> timestamp e <= timestamp e'.

(** No entry is strictly older than [t]. *)
Definition noneOlder (t : Z) (m : Cache) : Prop :=
  forall k e, In (k, e) m -> t <= timestamp e.

(** Every entry was stamped at [t] or before. *)
Definition stampedUpTo (t : Z) (m : Cache) : Prop :=
  forall k e, In (k, e) m -> timestamp e <= t.

(** A well-formed map has unique, non-empty keys (the route's keys always
    contain underscores). *)
Definition wf (m : Cache) : Prop :=
  NoDup (keys m) /\ ~ In "" (keys m).

(** One insertion request: key, payload, mime type and the two clock
    readings. *)
Record Insertion := mkInsertion {
  ins_key : string;
  ins_data : bytes;
  ins_mime : string;
  ins_nowEvict : Z;
  ins_nowStore : Z
}.

Definition insert (m : Cache) (i : Insertion) : Cache :=
  store (ins_nowEvict i) (ins_nowStore i) (ins_key i) (ins_data i) (ins_mime i) m.

Definition insertAll (m : Cache) (l : list Insertion) : Cache :=
  List.fold_left insert l m.

(** A clock that advances: every insertion reads the clock strictly after
    the latest stamp [t] given so far, and stamps its entry no earlier than
    its own eviction scan. *)
Fixpoint ticking (t : Z) (l : list Insertion) : Prop :=
  match l with
  | [] => True
  | i :: l' =>
      t < ins_nowEvict i /\ ins_nowEvict i <= ins_nowStore i /\ ins_key i <> ""
      /\ ticking (ins_nowStore i) l'
  end.

(** A valid image identifier made of [n] letters. *)
Fixpoint idOf (n : nat) : string :=
  match n with
  | O => EmptyString
  | S n' => String "a" (idOf n')
  end.

(** [n] insertions of distinct keys, all within the clock reading [now]. *)
Definition burst (now : Z) (n : nat) : list Insertion :=
  List.map
    (fun i => mkInsertion (idOf (S i) ++ "_png_auto_auto") [] "image/png" now now)
    (List.seq 0 n).

End ImageCache.

(* ------------------------------------------------------------------ *)
(** ** [node:path] on file names, and the codec interface              *)
(* ------------------------------------------------------------------ *)

Module Path.

(** Splits a slash-free name at its last dot: the part before the dot and
    the part from the dot on. *)
Fixpoint splitLastDot (s : string) : option (string * string) :=
  match s with
  | EmptyString => None
  | String c s' =>
      match splitLastDot s' with
      | Some (p, e) => Some (String c p, e)
      | None => if Ascii.eqb c "." then Some (EmptyString, s) else None
      end
  end.

(** No extension: no dot, a leading dot only, or the name [..]. *)
Definition noExt (s p : string) : bool := (p =? "")%string || (s =? "..")%string.

(** [path.extname(s)] (also [path.parse(s).ext]) *)
Definition extname (s : string) : string :=
  match splitLastDot s with
  | Some (p, e) => if noExt s p then "" else e
  | None => ""
  end.

(** [path.parse(s).name] *)
Definition name (s : string) : string :=
  match splitLastDot s with
  | Some (p, e) => if noExt s p then s else p
  | None => s
  end.

End Path.

Module Codec.

(** The pixel buffer exchanged with a converter. *)
Record ImageData := mkImageData {
  colorSpace : string;
  data : bytes;
  height : Z;
  width : Z
}.

(** [ConverterInterface]: both operations may throw ([None]). *)
Record ConverterInterface := mkConverter {
  decode : bytes -> option ImageData;
  encode : ImageData -> option bytes
}.

End Codec.

(* ------------------------------------------------------------------ *)
(** ** The image route [GET /images/:imageFile]                        *)
(* ------------------------------------------------------------------ *)

Module ImageApp.

(** The validated query: [format], [height] and [width] are optional. *)
Record Query := mkQuery {
  format : option string;
  height : option Q;
  width : option Q
}.

Record Request := mkRequest {
  imageFile : string;            (* validated [param] *)
  acceptHeader : option string;  (* [c.req.header('Accept')] *)
  query : Query
}.

Record Response := mkResponse {
  status : Z;
  headers : Headers.t;
  body : bytes
}.

(** A request ends in a response or in an error status with its message. *)
Inductive Outcome :=
| Respond (r : Response)
| Fail (code : Z) (message : string).

(** The three places where one request reads [Date.now()]. *)
Record Clock := mkClock {
  atLookup : Z;
  atEvict : Z;
  atStore : Z
}.

(** What the route takes from its surroundings. *)
Record Env := mkEnv {
  avifConverter : Codec.ConverterInterface;
  jpegConverter : Codec.ConverterInterface;
  jpegXlConverter : Codec.ConverterInterface;
  pngConverter : Codec.ConverterInterface;
  webpConverter : Codec.ConverterInterface;
  (** [image.resize({height, preserveAspectRatio: true, width})] of the
      image library, given the image, the width and the height asked for:
      the image it returns, with the data, height and width that the library
      chose, or [None] when it throws *)
  resize : Codec.ImageData -> Z -> Z -> option Codec.ImageData;
  (** the arithmetic of numbers *)
  float64 : Resize.Float64;
  (** template-literal conversion of a number *)
  numberToString : Q -> string;
  (** the files of [IMAGES_PATH] with their contents, in the order in which
      [globby] reports them *)
  IMAGES : list (string * bytes)
}.

Definition SUPPORTED_IMAGE_EXTENSIONS : list string :=
  ["jxl"; "avif"; "webp"; "png"; "jpeg"; "jpg"].

Definition isSupportedImageFormat (ext : string) : bool :=
  existsb (String.eqb ext) SUPPORTED_IMAGE_EXTENSIONS.

Definition IMAGE_MIME_TYPE (ext : string) : string :=
  if (ext =? "avif")%string then "image/avif"
  else if (ext =? "jpeg")%string then "image/jpeg"
  else if (ext =? "jpg")%string then "image/jpeg"
  else if (ext =? "jxl")%string then "image/jxl"
  else if (ext =? "png")%string then "image/png"
  else if (ext =? "webp")%string then "image/webp"
  else "".

Definition hasHeader (name value : string) (o : Outcome) : Prop :=
  match o with
  | Respond r => Headers.get name (headers r) = Some value
  | Fail _ _ => False
  end.

Definition noHeader (name : string) (o : Outcome) : Prop :=
  match o with
  | Respond r => Headers.get name (headers r) = None
  | Fail _ _ => True
  end.

Definition hasBody (b : bytes) (o : Outcome) : Prop :=
  match o with
  | Respond r => body r = b
  | Fail _ _ => False
  end.

Definition statusOf (o : Outcome) : Z :=
  match o with
  | Respond r => status r
  | Fail code _ => code
  end.

Definition isFail (o : Outcome) : Prop :=
  match o with
  | Respond _ => False
  | Fail _ _ => True
  end.

Section Route.

Variable env : Env.

Definition IMAGE_CONVERTER (ext : string) : option Codec.ConverterInterface :=
  if (ext =? "avif")%string then Some (avifConverter env)
  else if (ext =? "jpeg")%string then Some (jpegConverter env)
  else if (ext =? "jpg")%string then Some (jpegConverter env)
  else if (ext =? "jxl")%string then Some (jpegXlConverter env)
  else if (ext =? "png")%string then Some (pngConverter env)
  else if (ext =? "webp")%string then Some (webpConverter env)
  else None.

(** [fs.access(path.resolve(IMAGES_PATH, name))] resolves. *)
Definition access (name : string) : bool :=
  existsb (fun f => (fst f =? name)%string) (IMAGES env).

(** [globby([IMAGES_PATH/id, IMAGES_PATH/id.*], {onlyFiles: true})] *)
Definition globby (reqImgId : string) : list (string * bytes) :=
  List.filter
    (fun f => (fst f =? reqImgId)%string || Js.startsWith (fst f) (reqImgId ++ "."))
    (IMAGES env).

Definition reqImgId (req : Request) : string := Path.name (imageFile req).
Definition reqImgExt (req : Request) : string := Path.extname (imageFile req).

Definition acceptsWebP (req : Request) : bool :=
  Js.includes (Js.orElse (acceptHeader req) "") "image/webp".

(** [query.format ?? reqImgExt.slice(1)] *)
Definition requestedFormat (req : Request) : string :=
  Js.nullish (format (query req)) (Js.slice1 (reqImgExt req)).

(** The value of [resImgFormat] after lines 177-189. *)
Definition negotiateFormat (req : Request) : string :=
  let resImgFormat := requestedFormat req in
  if negb (Js.truthy (format (query req))) && acceptsWebP req
     && negb (resImgFormat =? "webp")%string
  then if access (reqImgId req ++ ".webp") then "webp" else resImgFormat
  else resImgFormat.

Definition dimension (o : option Q) : string :=
  match o with
  | Some n => numberToString env n
  | None => "auto"
  end.

Definition cacheKeyOf (req : Request) (resImgFormat : string) : string :=
  reqImgId req ++ "_" ++ resImgFormat ++ "_" ++ dimension (width (query req))
    ++ "_" ++ dimension (height (query req)).

Definition noSize (req : Request) : bool :=
  Js.isNull (width (query req)) && Js.isNull (height (query req)).

(** [c.header(name, value)] on the response under construction. *)
Definition header (name value : string) (h : Headers.t) : Headers.t :=
  Headers.set name value h.

(** [if (resImgFormat === 'webp' && !format) c.header('Vary', 'Accept')] *)
Definition varyOnNegotiation (req : Request) (resImgFormat : string)
    (h : Headers.t) : Headers.t :=
  if (resImgFormat =? "webp")%string && negb (Js.truthy (format (query req)))
  then header "Vary" "Accept" h
  else h.

Definition ok (h : Headers.t) (b : bytes) : Outcome := Respond (mkResponse 200 h b).

(** An error thrown by a library call reaches the default error handler. *)
Definition thrown : Outcome := Fail 500 "Internal Server Error".

Definition orThrow {A : Type} (o : option A) (k : A -> Outcome * ImageCache.Cache)
    (cache : ImageCache.Cache) : Outcome * ImageCache.Cache :=
  match o with
  | Some a => k a
  | None => (thrown, cache)
  end.

(** Lines 235-270: decode, resize, encode, populate the cache, respond. *)
Definition transcode (clock : Clock) (cache : ImageCache.Cache) (req : Request)
    (resImgFormat origImgFormat : string) (origBinary : bytes) (cacheKey : string)
  : Outcome * ImageCache.Cache :=
  orThrow (IMAGE_CONVERTER origImgFormat) (fun origConverter =>
  orThrow (Codec.decode origConverter origBinary) (fun image =>
    let w := Resize.resizeWidth (float64 env) (Codec.width image)
               (Codec.height image) (width (query req)) (height (query req)) in
    let h := Resize.resizeHeight (float64 env) (Codec.width image)
               (Codec.height image) (width (query req)) (height (query req)) in
  orThrow (resize env image w h) (fun manipulated =>
  orThrow (IMAGE_CONVERTER resImgFormat) (fun resConverter =>
  orThrow (Codec.encode resConverter
             (Codec.mkImageData "srgb" (Codec.data manipulated)
                (Codec.height manipulated) (Codec.width manipulated)))
    (fun resBinary =>
      let cache' :=
        ImageCache.store (atEvict clock) (atStore clock) cacheKey resBinary
          (IMAGE_MIME_TYPE resImgFormat) cache in
      (ok (varyOnNegotiation req resImgFormat
             (header "X-Cache" "MISS"
                (header "Content-Type" (IMAGE_MIME_TYPE resImgFormat) [])))
          resBinary,
       cache')) cache) cache) cache) cache) cache.

(** The handler of the route: the outcome and the cache it leaves. *)
Definition imageApp (clock : Clock) (cache : ImageCache.Cache) (req : Request)
  : Outcome * ImageCache.Cache :=
  let resImgFormat := negotiateFormat req in
  if negb (isSupportedImageFormat resImgFormat)
  then (Fail 501 ("Image format: " ++ resImgFormat ++ " is not supported."), cache)
  else
    match globby (reqImgId req) with
    | [] => (Fail 404 "Not found.", cache)
    | (origFilePath, origBinary) :: _ =>
        let origImgFormat := Js.slice1 (Path.extname origFilePath) in
        if negb (isSupportedImageFormat origImgFormat)
        then (Fail 500 "Failed to load image.", cache)
        else if (resImgFormat =? "webp")%string && (origImgFormat =? "webp")%string
                && noSize req
        then (ok (header "Vary" "Accept"
                    (header "X-Cache" "BYPASS"
                       (header "Content-Type" (IMAGE_MIME_TYPE "webp") [])))
                 origBinary,
              cache)
        else
          let cacheKey := cacheKeyOf req resImgFormat in
          match ImageCache.lookup (atLookup clock) cacheKey cache with
          | Some cached =>
              (ok (varyOnNegotiation req resImgFormat
                     (header "X-Cache" "HIT"
                        (header "Content-Type" (ImageCache.mimeType cached) [])))
                  (ImageCache.data cached),
               cache)
          | None =>
              if (resImgFormat =? origImgFormat)%string && noSize req
              then (ok (header "X-Cache" "BYPASS"
                          (header "Content-Type" (IMAGE_MIME_TYPE resImgFormat) []))
                       origBinary,
                    cache)
              else transcode clock cache req resImgFormat origImgFormat
                     origBinary cacheKey
          end
    end.

(** The origin file of a request and its format, when there is one. *)
Definition originOf (req : Request) : option (string * bytes) :=
  List.hd_error (globby (reqImgId req)).

Definition originFormat (req : Request) : option string :=
  option_map (fun f => Js.slice1 (Path.extname (fst f))) (originOf req).

(** Serving a sequence of requests, each with its clock readings, one after
    the other. *)
Fixpoint serve (cache : ImageCache.Cache) (l : list (Clock * Request))
  : list Outcome * ImageCache.Cache :=
  match l with
  | [] => ([], cache)
  | (clock, req) :: l' =>
      let '(o, cache1) := imageApp clock cache req in
      let '(os, cache2) := serve cache1 l' in
      (o :: os, cache2)
  end.

End Route.

(** The target format in the words of the specification: the explicit
    parameter when present, else webp under the three negotiation
    conditions, else the format of the request path. *)
Definition spec_negotiateFormat (env : Env) (req : Request) : string :=
  match format (query req) with
  | Some f => f
  | None =>
      if acceptsWebP req
         && negb (Js.slice1 (reqImgExt req) =? "webp")%string
         && access env (reqImgId req ++ ".webp")
      then "webp"
      else Js.slice1 (reqImgExt req)
  end.

(** The target was chosen without an explicit format parameter. *)
Definition negotiated (req : Request) : bool :=
  negb (Js.truthy (format (query req))).

(** No underscore occurs in [s]. *)
Fixpoint noUnderscore (s : string) : bool :=
  match s with
  | EmptyString => true
  | String c s' => negb (Ascii.eqb c "_") && noUnderscore s'
  end.

(** The [param] validator of the route: [imageFile] is a non-empty run of
    lower-case hexadecimal digits and hyphens, optionally followed by a dot
    and word characters. *)
Definition inRange (lo hi : nat) (c : ascii) : bool :=
  let n := nat_of_ascii c in ((lo <=? n) && (n <=? hi))%nat.

Definition isIdChar (c : ascii) : bool :=
  inRange 97 102 c || inRange 48 57 c || Ascii.eqb c "-".

Definition isWordChar (c : ascii) : bool :=
  inRange 97 122 c || inRange 65 90 c || inRange 48 57 c || Ascii.eqb c "_".

Fixpoint allChars (p : ascii -> bool) (s : string) : bool :=
  match s with
  | EmptyString => true
  | String c s' => p c && allChars p s'
  end.

(** The rest of the pattern after a first identifier character. *)
Fixpoint matchRest (s : string) : bool :=
  match s with
  | EmptyString => true
  | String c s' =>
      if isIdChar c then matchRest s'
      else Ascii.eqb c "." && allChars isWordChar s'
  end.

Definition validImageFile (s : string) : bool :=
  match s with
  | EmptyString => false
  | String c s' => isIdChar c && matchRest s'
  end.

(** What the reachability argument needs of a validated request: its
    identifier is free of underscores. *)
Definition validRequest (req : Request) : Prop :=
  noUnderscore (reqImgId req) = true.

(** The numerals of the template literal hold no underscore and are never
    the word [auto]. *)
Definition plainNumerals (env : Env) : Prop :=
  forall q, noUnderscore (numberToString env q) = true
            /\ numberToString env q <> "auto".

(** No entry sits under a key whose request takes the bypass: origin
    format as target and no size. *)
Definition bypassFree (env : Env) (cache : ImageCache.Cache) : Prop :=
  forall req f,
    validRequest req -> noSize req = true ->
    originFormat env req = Some f -> isSupportedImageFormat f = true ->
    ImageCache.get (cacheKeyOf env req f) cache = None.

(** The caches the route can build from the empty cache, over a store that
    does not change, by serving validated requests. *)
Inductive reachable (env : Env) : ImageCache.Cache -> Prop :=
| reach_empty : reachable env []
| reach_serve (cache : ImageCache.Cache) (clock : Clock) (req : Request) :
    reachable env cache -> validRequest req ->
    reachable env (snd (imageApp env clock cache req)).

End ImageApp.

(* ------------------------------------------------------------------ *)
(** ** The route seen by the stages that wrap it                       *)
(* ------------------------------------------------------------------ *)

Module Pipeline.
Import ImageApp.

(** The response of the route as the middlewares receive it; the body is
    one chunk. *)
Definition toHttp (r : Response) : Http.Response :=
  Http.mkResponse (status r) (headers r) (Some [body r]).

(** The entry found under the key of a validated request for a supported
    format carries the media type of that format. *)
Definition typed (env : Env) (cache : ImageCache.Cache) : Prop :=
  forall req f e,
    validRequest req -> isSupportedImageFormat f = true ->
    ImageCache.get (cacheKeyOf env req f) cache = Some e ->
    ImageCache.mimeType e = IMAGE_MIME_TYPE f.

(** The value of [X-Cache] is one of the three the route writes. *)
Definition knownXCache (o : Outcome) : Prop :=
  hasHeader "X-Cache" "HIT" o \/ hasHeader "X-Cache" "MISS" o
  \/ hasHeader "X-Cache" "BYPASS" o.

(** Every request of the run passed the validator. *)
Definition allValid (l : list (Clock * Request)) : Prop :=
  Forall (fun cr => validImageFile (imageFile (snd cr)) = true) l.

(** The clock advances over a run of requests: each request scans for
    eviction strictly after the latest stamp [t] given so far and stamps its
    entry no earlier than that scan. *)
Fixpoint advancing (t : Z) (l : list (Clock * Request)) : Prop :=
  match l with
  | [] => True
  | (clock, _) :: l' =>
      t < atEvict clock /\ atEvict clock <= atStore clock
      /\ advancing (atStore clock) l'
  end.

End Pipeline.

(* ------------------------------------------------------------------ *)
(** ** The service worker ([serviceworker/index.ts])                   *)
(* ------------------------------------------------------------------ *)

Module ServiceWorker.
Import Http.

Definition CACHE_DURATION : Z := 24 * 60 * 60 * 1000.

(** [s.endsWith(suffix)], the test of a pattern anchored by [$]. *)
Fixpoint endsWith (s suffix : string) : bool :=
  (s =? suffix)%string ||
  match s with
  | EmptyString => false
  | String _ s' => endsWith s' suffix
  end.

(** [CACHE_PATTERNS], each pattern as its test on the URL. *)
Definition CACHE_PATTERNS : list (string -> bool) :=
  [ (fun u => Js.includes u "/assets/");
    (fun u => Js.includes u "/images/");
    (fun u => endsWith u ".js");
    (fun u => endsWith u ".css");
    (fun u => endsWith u ".woff") ].

(** [CACHE_PATTERNS.some(pattern => pattern.test(url))] *)
Definition shouldCache (u : string) : bool :=
  existsb (fun pattern => pattern u) CACHE_PATTERNS.

Record Request := mkRequest {
  url : string;
  method : string
}.

(** [res.ok] *)
Definition ok (res : Response) : bool :=
  (200 <=? status res) && (status res <=? 299).

(** [n.toString()] for an integer time stamp. *)
Definition toString (n : Z) : string := NilZero.string_of_int (Z.to_int n).

(** What [onFetch] takes from the browser: the lookup in the cache storage
    as it stands when the request arrives, the network ([None] when the
    fetch rejects) and the JPEG XL conversion ([None] when it throws). *)
Record Env := mkEnv {
  cachesMatch : Request -> option Response;
  fetch : Request -> option Response;
  transformJpegXLToBmp : Response -> option Response
}.

(** The two places where [onFetch] reads [Date.now()]. *)
Record Clock := mkClock {
  atCheck : Z;
  atStamp : Z
}.

(** The response handed back ([None] when [onFetch] rethrows) and the calls
    of [cache.put] it issued. *)
Record Result := mkResult {
  response : option Response;
  puts : list (Request * Response)
}.

(** Lines 46-51: the cached response carries a [sw-cache-date] whose age is
    below [CACHE_DURATION]. *)
Definition fresh (now : Z) (cached : Response) : bool :=
  let cacheDate := Headers.get "sw-cache-date" (headers cached) in
  if Js.truthy cacheDate
  then match Num.parseInt (Js.nullish cacheDate "") with
       | Some date => now - date <? CACHE_DURATION
       | None => false
       end
  else false.

(** Lines 66-74 and 83-91: the copy that goes into the cache. *)
Definition stamped (now : Z) (res : Response) : Response :=
  mkResponse (status res)
    (Headers.set "sw-cache-date" (toString now) (headers res))
    (body res).

(** [if (shouldCache && res.ok) cache.put(request, cachedResponse)] *)
Definition putIfCacheable (now : Z) (request : Request) (res toCache : Response)
  : list (Request * Response) :=
  if shouldCache (url request) && ok res
  then [(request, stamped now toCache)]
  else [].

(** The cache-first part (lines 41-54): the cached response when it is
    served without the network. *)
Definition cacheFirst (env : Env) (now : Z) (request : Request) : option Response :=
  if shouldCache (url request) && (method request =? "GET")%string
  then match cachesMatch env request with
       | Some cached => if fresh now cached then Some cached else None
       | None => None
       end
  else None.

(** The [catch] block: the cached response if there is one, else the error. *)
Definition offline (env : Env) (request : Request) : Result :=
  mkResult (cachesMatch env request) [].

Definition onFetch (env : Env) (clock : Clock) (request : Request) : Result :=
  match cacheFirst env (atCheck clock) request with
  | Some cached => mkResult (Some cached) []
  | None =>
      match fetch env request with
      | None => offline env request
      | Some res =>
          match Headers.get "Content-Type" (headers res) with
          | Some contentType =>
              if (contentType =? "image/jxl")%string
              then match transformJpegXLToBmp env res with
                   | None => offline env request
                   | Some transformedRes =>
                       mkResult (Some transformedRes)
                         (putIfCacheable (atStamp clock) request res transformedRes)
                   end
              else mkResult (Some res)
                     (putIfCacheable (atStamp clock) request res res)
          | None =>
              mkResult (Some res) (putIfCacheable (atStamp clock) request res res)
          end
      end
  end.

(** The response of the network path, before any copy is stored. *)
Definition fromNetwork (env : Env) (request : Request) : option Response :=
  match fetch env request with
  | None => None
  | Some res =>
      if match Headers.get "Content-Type" (headers res) with
         | Some contentType => (contentType =? "image/jxl")%string
         | None => false
         end
      then transformJpegXLToBmp env res
      else Some res
  end.

End ServiceWorker.

(* ------------------------------------------------------------------ *)
(** ** The crop arithmetic of [useImage] (lines 64-80)                 *)
(* ------------------------------------------------------------------ *)

Module UseImage.
Import Resize.

Local Open Scope Q_scope.

(** Two properties of rounding to the nearest number: it keeps the order,
    and a rounded value rounds to itself. *)
Definition monotone (F : Float64) : Prop :=
  forall x y, x <= y -> rnd F x <= rnd F y.

Definition idempotent (F : Float64) : Prop :=
  forall x, rnd F (rnd F x) == rnd F x.

(** A requested dimension that is absent or not negative. *)
Definition absentOrNonNegative (o : option Q) : Prop :=
  match o with
  | None => True
  | Some q => 0 <= q
  end.

(** [x - y] on numbers *)
Definition fsub (F : Float64) (x y : Q) : Q := rnd F (x - y).

(** The source rectangle handed to [ctx.drawImage]. *)
Record SourceRect := mkRect {
  srcX : Q;
  srcY : Q;
  srcW : Q;
  srcH : Q
}.

(** [imgAspect > targetAspect] *)
Definition wider (F : Float64) (naturalWidth naturalHeight : Z) (width height : Q)
  : bool :=
  negb (Qle_bool (fdiv F (inject_Z naturalWidth) (inject_Z naturalHeight))
                 (fdiv F width height)).

(** The object-fit: cover computation: the part of the decoded image that
    is drawn onto the canvas.  The quotients are those of the rationals, so
    the definition follows the hook only where no divisor is zero (numbers
    give [Infinity] or [NaN] there): for a positive [height], a positive
    [naturalHeight] and a target aspect that is not zero. *)
Definition coverSource (F : Float64) (naturalWidth naturalHeight : Z)
    (width height : Q) : SourceRect :=
  let targetAspect := fdiv F width height in
  if wider F naturalWidth naturalHeight width height
  then
    let w := fmul F (inject_Z naturalHeight) targetAspect in
    mkRect (fdiv F (fsub F (inject_Z naturalWidth) w) 2) 0
           w (inject_Z naturalHeight)
  else
    let h := fdiv F (inject_Z naturalWidth) targetAspect in
    mkRect 0 (fdiv F (fsub F (inject_Z naturalHeight) h) 2)
           (inject_Z naturalWidth) h.

End UseImage.

(* ------------------------------------------------------------------ *)
(** ** A small asset store with stub codecs, for concrete runs         *)
(* ------------------------------------------------------------------ *)

Module Samples.
Import ImageApp.

Definition pngBytes : bytes := [Byte.x89; Byte.x50; Byte.x4e; Byte.x47].
Definition webpBytes : bytes := [Byte.x52; Byte.x49; Byte.x46; Byte.x46].
Definition encoded : bytes := [Byte.x2a].

(** A codec that decodes every file to a 200x200 buffer and encodes every
    buffer to the same payload. *)
Definition stubConverter : Codec.ConverterInterface :=
  Codec.mkConverter
    (fun _ => Some (Codec.mkImageData "srgb" [] 200 200))
    (fun _ => Some encoded).

(** The decimal numeral of a whole number. *)
Definition wholeToString (q : Q) : string :=
  NilZero.string_of_int (Z.to_int (Qfloor q)).

(** The store holds [abc.png] with its sibling [abc.webp], and [beef.webp]. *)
Definition env : Env :=
  mkEnv stubConverter stubConverter stubConverter stubConverter stubConverter
    (fun _ w h => Some (Codec.mkImageData "srgb" [] h w))
    Resize.exact
    wholeToString
    [("abc.png", pngBytes); ("abc.webp", webpBytes); ("beef.webp", webpBytes)].

Definition noQuery : Query := mkQuery None None None.

(** [GET /images/abc.png?format=] with [Accept: image/webp] *)
Definition emptyFormatAcceptingWebp : Request :=
  mkRequest "abc.png" (Some "image/webp,*/*") (mkQuery (Some "") None None).

(** [GET /images/abc.png?format=] without an [Accept] header *)
Definition emptyFormatPlain : Request :=
  mkRequest "abc.png" None (mkQuery (Some "") None None).

(** [GET /images/beef?format=webp] *)
Definition explicitWebp : Request :=
  mkRequest "beef" None (mkQuery (Some "webp") None None).

(** [GET /images/abc.png?format=webp] *)
Definition explicitWebpFromPng : Request :=
  mkRequest "abc.png" None (mkQuery (Some "webp") None None).

(** [GET /images/beef.webp] *)
Definition pathWebp : Request := mkRequest "beef.webp" None noQuery.

(** [GET /images/abc.png] *)
Definition plainPng : Request := mkRequest "abc.png" None noQuery.

(** [GET /images/dead], for which the store has no file *)
Definition missingNoExt : Request := mkRequest "dead" None noQuery.

(** [GET /images/dead.png], for which the store has no file *)
Definition missingPng : Request := mkRequest "dead.png" None noQuery.

(** [GET /images/abc.png?width=100&height=50] *)
Definition resized : Request :=
  mkRequest "abc.png" None (mkQuery None (Some (50 # 1)) (Some (100 # 1))).

(** An [encoding] that answers [zstd] when the header names it. *)
Definition stubEncoding (acceptEncoding : option string) (_ : list string) : string :=
  if Js.includes (Js.orElse acceptEncoding "") "zstd" then "zstd" else "identity".

(** A compressor that puts a frame byte before the chunk. *)
Definition stubZstd (chunk : bytes) (_ : Z) : bytes := Byte.x28 :: chunk.

(** A text response that declares an empty body. *)
Definition emptyText : Http.Response :=
  Http.mkResponse 200
    [("content-type", "text/plain"); ("content-length", "0")] (Some []).

(** A 500-byte and a 2000-byte JSON response (bodies elided to one chunk). *)
Definition smallJson : Http.Response :=
  Http.mkResponse 200
    [("content-type", "application/json"); ("content-length", "500")]
    (Some [[Byte.x7b; Byte.x7d]]).

Definition largeJson : Http.Response :=
  Http.mkResponse 200
    [("content-type", "application/json"); ("content-length", "2000")]
    (Some [[Byte.x7b; Byte.x7d]]).

(** A JSON response of 500 bytes that declares no length. *)
Definition undeclaredJson : Http.Response :=
  Http.mkResponse 200 [("content-type", "application/json")]
    (Some [List.repeat Byte.x20 500]).

Definition at_ (t : Z) : Clock := mkClock t t t.

(** A store of [n] jpeg files with distinct identifiers, and one request per
    file for its png rendition, all served within the clock reading [now]. *)
Definition burstEnv (n : nat) : Env :=
  mkEnv stubConverter stubConverter stubConverter stubConverter stubConverter
    (fun _ w h => Some (Codec.mkImageData "srgb" [] h w))
    Resize.exact
    wholeToString
    (List.map (fun i => (ImageCache.idOf (S i) ++ ".jpg", pngBytes)) (List.seq 0 n)).

Definition burstRequests (now : Z) (n : nat) : list (Clock * Request) :=
  List.map
    (fun i => (mkClock now now now,
               mkRequest (ImageCache.idOf (S i) ++ ".jpg") None
                 (mkQuery (Some "png") None None)))
    (List.seq 0 n).

(** The cache after one transcode of [resized] at time 1000. *)
Definition warm : ImageCache.Cache := snd (imageApp env (at_ 1000) [] resized).

(** Two entries and the cache that holds them. *)
Definition olderEntry : ImageCache.CacheEntry :=
  ImageCache.mkEntry encoded "image/png" 1000.

Definition newerEntry : ImageCache.CacheEntry :=
  ImageCache.mkEntry encoded "image/webp" 1001.

Definition twoEntries : ImageCache.Cache :=
  [("aa_png_auto_auto", olderEntry); ("bb_webp_auto_auto", newerEntry)].

(** Three entries, the last two with the same smallest stamp. *)
Definition tied : ImageCache.Cache :=
  [("cc_png_auto_auto", ImageCache.mkEntry encoded "image/png" 1007);
   ("aa_png_auto_auto", ImageCache.mkEntry encoded "image/png" 1005);
   ("bb_png_auto_auto", ImageCache.mkEntry encoded "image/png" 1005)].

(** [n] insertions of distinct keys, one per millisecond from 1000 on. *)
Definition steady (n : nat) : list ImageCache.Insertion :=
  List.map
    (fun i => ImageCache.mkInsertion (ImageCache.idOf (S i) ++ "_png_auto_auto")
                [] "image/png" (1000 + Z.of_nat i) (1000 + Z.of_nat i))
    (List.seq 0 n).

(** [GET /images/abc.png?format=tiff] *)
Definition explicitTiff : Request :=
  mkRequest "abc.png" None (mkQuery (Some "tiff") None None).

(** [GET /images/abc.png] with [Accept: image/webp] *)
Definition pngAcceptingWebp : Request :=
  mkRequest "abc.png" (Some "image/avif,image/webp,*/*") noQuery.

(** [GET /images/abc.jpg?format=png&width=100&height=50] *)
Definition resizedViaJpg : Request :=
  mkRequest "abc.jpg" None (mkQuery (Some "png") (Some (50 # 1)) (Some (100 # 1))).

(** One request per file of [burstEnv n] for its png rendition, one per
    millisecond from 1000 on. *)
Definition steadyRequests (n : nat) : list (Clock * Request) :=
  List.map
    (fun i => (at_ (1000 + Z.of_nat i),
               mkRequest (ImageCache.idOf (S i) ++ ".jpg") None
                 (mkQuery (Some "png") None None)))
    (List.seq 0 n).

(** A page script as the network returns it, and a browser whose cache
    holds the copy of it that was stored at time 1000; the network is down
    in [swOffline]. *)
Definition script : Http.Response :=
  Http.mkResponse 200 [("content-type", "text/javascript")]
    (Some [[Byte.x2f; Byte.x2f]]).

Definition scriptRequest : ServiceWorker.Request :=
  ServiceWorker.mkRequest "https://example.test/assets/app.js" "GET".

Definition swEmpty : ServiceWorker.Env :=
  ServiceWorker.mkEnv (fun _ => None) (fun _ => Some script) (fun r => Some r).

Definition swStored : ServiceWorker.Env :=
  ServiceWorker.mkEnv
    (fun _ => Some (ServiceWorker.stamped 1000 script))
    (fun _ => Some script) (fun r => Some r).

Definition swOffline : ServiceWorker.Env :=
  ServiceWorker.mkEnv
    (fun _ => Some (ServiceWorker.stamped 1000 script))
    (fun _ => None) (fun r => Some r).

End Samples.

(* ================================================================== *)
(** * Properties                                                       *)
(* ================================================================== *)

(* ------------------------------------------------------------------ *)
(** ** Resize arithmetic                                               *)
(* ------------------------------------------------------------------ *)

Module ResizeProps.
Import Resize.

Local Open Scope Q_scope.

Lemma binary64_integer (n : Z) : (Z.abs n < 2 ^ 53)%Z -> binary64 (inject_Z n).
Proof.
  intro B. exists n, 0%Z. split; [exact B|]. split; [lia|]. simpl. ring.
Qed.

Lemma binary64_half : binary64 (1 # 2).
Proof. exists 1%Z, (-1)%Z. split; [reflexivity|]. split; [lia|reflexivity]. Qed.

Lemma binary64_quarter : binary64 (1 # 4).
Proof. exists 1%Z, (-2)%Z. split; [reflexivity|]. split; [lia|reflexivity]. Qed.

Section Arithmetic.

Variable F : Float64.

Lemma rnd_zero (x : Q) : x == 0 -> rnd F x == 0.
Proof.
  intro E. rewrite (rnd_proper F x 0 E).
  apply rnd_exact. apply (binary64_integer 0). reflexivity.
Qed.

Lemma rnd_integer (x : Q) (n : Z) :
  (Z.abs n < 2 ^ 53)%Z -> x == inject_Z n -> rnd F x == inject_Z n.
Proof.
  intros B E. rewrite (rnd_proper F x _ E). now apply rnd_exact, binary64_integer.
Qed.

Lemma fdiv_zero (x d : Q) : x == 0 -> fdiv F x d == 0.
Proof.
  intro E. unfold fdiv. apply rnd_zero. rewrite E. unfold Qdiv. ring.
Qed.

Lemma maxRatio_zero (W H : Z) (width height : option Q) :
  absentOrZero width -> absentOrZero height -> maxRatio F W H width height == 0.
Proof.
  intros Hw Hh. unfold maxRatio.
  assert (Ew : Js.nullish width 0 == 0)
    by (destruct width; simpl in *; [exact Hw | reflexivity]).
  assert (Eh : Js.nullish height 0 == 0)
    by (destruct height; simpl in *; [exact Hh | reflexivity]).
  rewrite (fdiv_zero _ (inject_Z W) Ew), (fdiv_zero _ (inject_Z H) Eh).
  apply Q.max_id.
Qed.

Lemma maxRatio_absent (W H : Z) : maxRatio F W H None None == 0.
Proof. apply maxRatio_zero; exact I. Qed.

Lemma scale_of_zero (W H : Z) (width height : option Q) :
  maxRatio F W H width height == 0 -> scale F W H width height = 1.
Proof.
  intro E. unfold scale.
  apply Qeq_bool_iff in E. cbv zeta. now rewrite E.
Qed.

Lemma scale_of_nonzero (W H : Z) (width height : option Q) :
  ~ maxRatio F W H width height == 0 ->
  scale F W H width height = maxRatio F W H width height.
Proof.
  intro N. unfold scale. cbv zeta.
  destruct (Qeq_bool (maxRatio F W H width height) 0) eqn:E; [|reflexivity].
  apply Qeq_bool_iff in E. contradiction.
Qed.

Lemma ceiling_times_one (n : Z) :
  (Z.abs n < 2 ^ 53)%Z -> Qceiling (fmul F (inject_Z n) 1) = n.
Proof.
  intro B. unfold fmul.
  rewrite (Qceiling_comp _ (inject_Z n)); [apply Qceiling_Z|].
  apply rnd_integer; [exact B|ring].
Qed.

(** With a unit scale the image keeps its size. *)
Lemma resizeDims_unit (W H : Z) (width height : option Q) :
  (Z.abs W < 2 ^ 53)%Z -> (Z.abs H < 2 ^ 53)%Z ->
  scale F W H width height = 1 -> resizeDims F W H width height = (W, H).
Proof.
  intros BW BH E. unfold resizeDims, resizeWidth, resizeHeight.
  rewrite E, !ceiling_times_one by assumption. reflexivity.
Qed.

(** The worked case: 200x200 with width 100 and height 50. *)
Lemma scale_200_100_50 :
  scale F 200 200 (Some (100 # 1)) (Some (50 # 1)) == 1 # 2.
Proof.
  assert (M : maxRatio F 200 200 (Some (100 # 1)) (Some (50 # 1)) == 1 # 2).
  { unfold maxRatio, fdiv. simpl.
    rewrite (rnd_proper F ((100 # 1) / inject_Z 200) (1 # 2)) by reflexivity.
    rewrite (rnd_proper F ((50 # 1) / inject_Z 200) (1 # 4)) by reflexivity.
    rewrite (rnd_exact F _ binary64_half), (rnd_exact F _ binary64_quarter).
    reflexivity. }
  rewrite scale_of_nonzero; [exact M|].
  rewrite M. discriminate.
Qed.

Lemma resizeDims_200_100_50 :
  resizeDims F 200 200 (Some (100 # 1)) (Some (50 # 1)) = (100%Z, 100%Z).
Proof.
  assert (C : Qceiling (fmul F (inject_Z 200)
                          (scale F 200 200 (Some (100 # 1)) (Some (50 # 1))))
              = 100%Z).
  { unfold fmul. rewrite (Qceiling_comp _ (inject_Z 100)); [apply Qceiling_Z|].
    apply rnd_integer; [reflexivity|].
    rewrite scale_200_100_50. reflexivity. }
  unfold resizeDims, resizeWidth, resizeHeight. now rewrite C.
Qed.


End Arithmetic.

(** For a 200x200 origin and [width=0] the route keeps 200x200, where the
    formula with scale 1 only for two absent dimensions gives 0x0; the
    values involved are exact in binary64, so this holds whatever the
    rounding. *)
Lemma resize_zero_width_any_rounding (F : Float64) :
  resizeDims F 200 200 (Some 0) None = (200%Z, 200%Z)
  /\ spec_resizeDims F 200 200 (Some 0) None = (0%Z, 0%Z).
Proof.
  split.
  - apply resizeDims_unit; [reflexivity|reflexivity|].
    apply scale_of_zero, maxRatio_zero; simpl; [reflexivity|exact I].
  - unfold spec_resizeDims, spec_scale.
    assert (M : maxRatio F 200 200 (Some 0) None == 0)
      by (apply maxRatio_zero; simpl; [reflexivity|exact I]).
    assert (C : forall n : Z,
               Qceiling (fmul F (inject_Z n) (maxRatio F 200 200 (Some 0) None))
               = 0%Z).
    { intro n. unfold fmul. rewrite (Qceiling_comp _ (inject_Z 0));
        [apply Qceiling_Z|].
      apply rnd_zero. rewrite M. ring. }
    now rewrite !C.
Qed.


(** *** How far rounding moves the dimensions

    The formula of the route in exact arithmetic is [resizeDims exact]; the
    lemmas below bound the rounded computation against it, for a rounding
    that is [accurate]. *)

(** Exact arithmetic is accurate. *)
Lemma exact_accurate : accurate exact.
Proof.
  intros x [Lo _]. simpl.
  assert (P : 0 < Qpower 2 (-1022)) by reflexivity.
  unfold eps. split; lra.
Qed.

Lemma inject_lt (a b : Z) : (a < b)%Z -> inject_Z a < inject_Z b.
Proof. intro L. unfold Qlt. simpl. lia. Qed.

Lemma inject_le (a b : Z) : (a <= b)%Z -> inject_Z a <= inject_Z b.
Proof. intro L. unfold Qle. simpl. lia. Qed.

Lemma ceiling_le_whole (p : Q) (z : Z) : p <= inject_Z z -> (Qceiling p <= z)%Z.
Proof.
  intro L. rewrite <- (Qceiling_Z z). now apply Qceiling_resp_le.
Qed.

Lemma whole_lt_ceiling (p : Q) (z : Z) : inject_Z z < p -> (z < Qceiling p)%Z.
Proof.
  intro L. pose proof (Qle_ceiling p) as U.
  assert (T : inject_Z z < inject_Z (Qceiling p)) by (eapply Qlt_le_trans; eauto).
  unfold Qlt in T. simpl in T. lia.
Qed.

Lemma eq_le (x y : Q) : x == y -> x <= y.
Proof. intro E. rewrite E. apply Qle_refl. Qed.

Lemma whole_ratio_nonneg (k D : Z) :
  (0 <= k)%Z -> (0 < D)%Z -> 0 <= inject_Z k / inject_Z D.
Proof.
  intros K P. apply Qle_shift_div_l.
  - now apply (inject_lt 0 D).
  - rewrite Qmult_0_l. now apply (inject_le 0 k).
Qed.

Lemma inv_above (D : Z) :
  (0 < D < sizeLimit)%Z -> 1 # 65536 < / inject_Z D.
Proof.
  intros [P L].
  assert (Pd : 0 < inject_Z D) by now apply (inject_lt 0 D).
  assert (Ld : inject_Z D < 65536) by now apply (inject_lt D 65536).
  apply Qlt_shift_inv_l; [exact Pd|]. lra.
Qed.

(** A value within two roundings of a quotient [k / D] of whole numbers has
    the ceiling of the quotient or one more: the error is below [1 / D],
    and a quotient that exceeds a whole number exceeds it by [1 / D] at
    least. *)
Lemma ceiling_tracks (X p : Q) (k D : Z) :
  (0 <= k)%Z -> (0 < D < sizeLimit)%Z ->
  X == inject_Z k / inject_Z D -> X < 4294967296 ->
  (1 - eps) * ((1 - eps) * X) <= p <= (1 + eps) * ((1 + eps) * X) ->
  (Qceiling X <= Qceiling p <= Qceiling X + 1)%Z.
Proof.
  intros K PD E B [Lo Hi].
  assert (N : 0 <= X) by (rewrite E; apply whole_ratio_nonneg; lia).
  unfold eps in *.
  split.
  - assert (G : inject_Z (Qceiling X - 1) < p);
      [|apply whole_lt_ceiling in G; lia].
    pose proof (Qceiling_lt X) as C.
    remember (Qceiling X) as n eqn:En. clear En.
    pose proof (inv_above D PD) as T.
    assert (Pd : 0 < inject_Z D) by (apply (inject_lt 0 D); lia).
    assert (S : inject_Z (n - 1) + / inject_Z D <= X).
    { assert (Z1 : ((n - 1) * D + 1 <= k)%Z).
      { assert (Z2 : inject_Z ((n - 1) * D) < inject_Z k).
        { rewrite inject_Z_mult.
          apply Qlt_le_trans with (X * inject_Z D).
          - apply Qmult_lt_compat_r; assumption.
          - rewrite E. apply eq_le. field. lra. }
        unfold Qlt in Z2. simpl in Z2. lia. }
      apply inject_le in Z1. rewrite inject_Z_plus, inject_Z_mult in Z1.
      rewrite E. apply Qle_shift_div_l; [exact Pd|].
      apply Qle_trans with (inject_Z (n - 1) * inject_Z D + inject_Z 1);
        [|exact Z1].
      apply eq_le. change (inject_Z 1) with 1. field. lra. }
    lra.
  - apply ceiling_le_whole. rewrite inject_Z_plus. change (inject_Z 1) with 1.
    pose proof (Qle_ceiling X). lra.
Qed.

Lemma request_whole (o : option Q) :
  wholeSize o ->
  exists a : Z, (0 <= a < sizeLimit)%Z /\ Js.nullish o 0 == inject_Z a.
Proof.
  destruct o as [q|]; simpl.
  - intros [n [B E]]. now exists n.
  - intros _. exists 0%Z. split; [unfold sizeLimit; lia|reflexivity].
Qed.

Lemma tiny_below_ratio : Qpower 2 (-1022) <= 1 # 65536.
Proof. vm_compute. discriminate. Qed.

Lemma ratio_below_huge : 8589934592 <= Qpower 2 1023.
Proof. vm_compute. discriminate. Qed.

Lemma whole_ratio_range (a D : Z) :
  (1 <= a < sizeLimit)%Z -> (0 < D < sizeLimit)%Z ->
  1 # 65536 <= inject_Z a / inject_Z D <= 65536.
Proof.
  unfold sizeLimit. intros [A1 A2] [D1 D2].
  assert (Pd : 0 < inject_Z D) by now apply (inject_lt 0 D).
  assert (Ld : inject_Z D < 65536) by now apply (inject_lt D 65536).
  assert (Pa : 1 <= inject_Z a) by now apply (inject_le 1 a).
  assert (La : inject_Z a < 65536) by now apply (inject_lt a 65536).
  assert (Dd : 1 <= inject_Z D) by (apply (inject_le 1 D); lia).
  split.
  - apply Qle_shift_div_l; [exact Pd|]. lra.
  - apply Qle_shift_div_r; [exact Pd|]. lra.
Qed.

Section Accuracy.

Variable F : Float64.
Hypothesis acc : accurate F.

(** The rounded ratio of a requested size to a side of the image. *)
Lemma ratio_bounds (x : Q) (a D : Z) :
  (0 <= a < sizeLimit)%Z -> (0 < D < sizeLimit)%Z -> x == inject_Z a ->
  (1 - eps) * (inject_Z a / inject_Z D) <= fdiv F x (inject_Z D)
    <= (1 + eps) * (inject_Z a / inject_Z D).
Proof.
  intros A PD E.
  destruct (Z.eq_dec a 0) as [->|NZ].
  - rewrite (fdiv_zero F x (inject_Z D) E).
    assert (Z0 : inject_Z 0 / inject_Z D == 0) by (unfold Qdiv; ring).
    rewrite Z0. split; lra.
  - unfold fdiv.
    assert (E' : x / inject_Z D == inject_Z a / inject_Z D) by now rewrite E.
    rewrite (rnd_proper F _ _ E').
    apply acc.
    destruct (whole_ratio_range a D) as [Lo Hi]; [lia|exact PD|].
    pose proof tiny_below_ratio. pose proof ratio_below_huge. split; lra.
Qed.

Lemma max_bounds (aw ah rw rh : Q) :
  (1 - eps) * aw <= rw <= (1 + eps) * aw ->
  (1 - eps) * ah <= rh <= (1 + eps) * ah ->
  (1 - eps) * Qmax aw ah <= Qmax rw rh <= (1 + eps) * Qmax aw ah.
Proof.
  intros [Lw Uw] [Lh Uh].
  pose proof (Q.le_max_l aw ah) as Ma. pose proof (Q.le_max_r aw ah) as Mb.
  pose proof (Q.le_max_l rw rh) as Mc. pose proof (Q.le_max_r rw rh) as Md.
  unfold eps in *. split.
  - destruct (Q.max_dec aw ah) as [E|E]; rewrite E; lra.
  - apply Q.max_lub; lra.
Qed.

(** The exact maximum of the ratios is one of the two, a quotient of whole
    numbers below the size limit. *)
Lemma exact_maxRatio_whole (W H : Z) (width height : option Q) :
  (0 < W < sizeLimit)%Z -> (0 < H < sizeLimit)%Z ->
  wholeSize width -> wholeSize height ->
  exists c D : Z,
    (0 <= c < sizeLimit)%Z /\ (0 < D < sizeLimit)%Z
    /\ maxRatio exact W H width height == inject_Z c / inject_Z D.
Proof.
  intros PW PH Sw Sh.
  destruct (request_whole width Sw) as [a [Ba Ea]].
  destruct (request_whole height Sh) as [b [Bb Eb]].
  unfold maxRatio, fdiv. simpl.
  destruct (Q.max_dec (Js.nullish width 0 / inject_Z W)
                      (Js.nullish height 0 / inject_Z H)) as [E|E].
  - exists a, W. split; [exact Ba|]. split; [exact PW|]. rewrite E. now rewrite Ea.
  - exists b, H. split; [exact Bb|]. split; [exact PH|]. rewrite E. now rewrite Eb.
Qed.

Lemma maxRatio_bounds (W H : Z) (width height : option Q) :
  (0 < W < sizeLimit)%Z -> (0 < H < sizeLimit)%Z ->
  wholeSize width -> wholeSize height ->
  (1 - eps) * maxRatio exact W H width height <= maxRatio F W H width height
    <= (1 + eps) * maxRatio exact W H width height.
Proof.
  intros PW PH Sw Sh.
  destruct (request_whole width Sw) as [a [Ba Ea]].
  destruct (request_whole height Sh) as [b [Bb Eb]].
  change (maxRatio exact W H width height)
    with (Qmax (Js.nullish width 0 / inject_Z W)
               (Js.nullish height 0 / inject_Z H)).
  unfold maxRatio. apply max_bounds.
  - assert (R : Js.nullish width 0 / inject_Z W == inject_Z a / inject_Z W)
      by now rewrite Ea.
    rewrite R. apply ratio_bounds; assumption.
  - assert (R : Js.nullish height 0 / inject_Z H == inject_Z b / inject_Z H)
      by now rewrite Eb.
    rewrite R. apply ratio_bounds; assumption.
Qed.

Lemma maxRatio_zero_of_exact (W H : Z) (width height : option Q) :
  (0 < W < sizeLimit)%Z -> (0 < H < sizeLimit)%Z ->
  wholeSize width -> wholeSize height ->
  maxRatio exact W H width height == 0 -> maxRatio F W H width height == 0.
Proof.
  intros PW PH Sw Sh Z0.
  destruct (maxRatio_bounds W H width height PW PH Sw Sh) as [Lo Hi].
  rewrite Z0 in Lo, Hi. apply Qle_antisym; lra.
Qed.

(** One side of the image: the rounded computation gives the exact ceiling or
    one more. *)
Lemma side_tracks (S W H : Z) (width height : option Q) :
  (0 < S < sizeLimit)%Z -> (0 < W < sizeLimit)%Z -> (0 < H < sizeLimit)%Z ->
  wholeSize width -> wholeSize height ->
  (Qceiling (fmul exact (inject_Z S) (scale exact W H width height))
   <= Qceiling (fmul F (inject_Z S) (scale F W H width height))
   <= Qceiling (fmul exact (inject_Z S) (scale exact W H width height)) + 1)%Z.
Proof.
  intros PS PW PH Sw Sh.
  assert (BS : (Z.abs S < 2 ^ 53)%Z) by (unfold sizeLimit in PS; lia).
  destruct (exact_maxRatio_whole W H width height PW PH Sw Sh)
    as [c [D [Bc [PD EM]]]].
  pose proof (maxRatio_bounds W H width height PW PH Sw Sh) as [Lo Hi].
  destruct (Z.eq_dec c 0) as [->|NZ].
  - assert (Z0 : maxRatio exact W H width height == 0)
      by (rewrite EM; unfold Qdiv; ring).
    pose proof (maxRatio_zero_of_exact W H width height PW PH Sw Sh Z0) as Z1.
    rewrite (scale_of_zero exact _ _ _ _ Z0), (scale_of_zero F _ _ _ _ Z1).
    rewrite !ceiling_times_one by exact BS. lia.
  - destruct (whole_ratio_range c D) as [Rl Rh]; [lia|exact PD|].
    rewrite <- EM in Rl, Rh.
    assert (Pm : (1 # 65536) * (1 - eps) <= maxRatio F W H width height)
      by (unfold eps in *; lra).
    assert (Um : maxRatio F W H width height <= 65536 * (1 + eps))
      by (unfold eps in *; lra).
    rewrite (scale_of_nonzero exact W H width height)
      by (intro Z0; rewrite Z0 in Rl; revert Rl; unfold Qle; simpl; lia).
    rewrite (scale_of_nonzero F W H width height)
      by (intro Z0; rewrite Z0 in Pm; revert Pm; unfold eps, Qle; simpl; lia).
    remember (maxRatio exact W H width height) as M eqn:EqM. clear EqM.
    remember (maxRatio F W H width height) as m eqn:Eqm. clear Eqm.
    assert (P1 : 1 <= inject_Z S) by (apply (inject_le 1 S); lia).
    assert (L1 : inject_Z S < 65536) by (apply (inject_lt S 65536); apply PS).
    assert (Ps : 0 < inject_Z S) by lra.
    assert (Wl : inject_Z S * ((1 - eps) * M) <= inject_Z S * m)
      by (apply Qmult_le_l; assumption).
    assert (Wh : inject_Z S * m <= inject_Z S * ((1 + eps) * M))
      by (apply Qmult_le_l; assumption).
    assert (XB : inject_Z S * M <= inject_Z S * 65536)
      by (apply Qmult_le_l; assumption).
    assert (XL : inject_Z S * (1 # 65536) <= inject_Z S * M)
      by (apply Qmult_le_l; assumption).
    apply (ceiling_tracks _ _ (S * c) D).
    + unfold sizeLimit in *. nia.
    + exact PD.
    + simpl. rewrite EM, inject_Z_mult. field.
      assert (0 < inject_Z D) by (apply (inject_lt 0 D); lia). lra.
    + simpl. unfold eps in *. lra.
    + simpl. unfold fmul.
      assert (R : Qpower 2 (-1022) <= inject_Z S * m <= Qpower 2 1023).
      { pose proof tiny_below_ratio. pose proof ratio_below_huge.
        unfold eps in *. split; lra. }
      destruct (acc _ R) as [A1 A2]. unfold eps in *. split; lra.
Qed.


End Accuracy.

(** Both values occur.  For a 200x200 origin asked for width 7 the formula
    gives 7x7 in exact arithmetic; once 7/200 is rounded to the binary64
    number next to it, which lies above, the product exceeds 7 and the
    route asks for 8x8. *)
Lemma nearest7_accurate : accurate nearest7.
Proof.
  intros x [Lo Hi]. simpl. unfold roundAt_7_200.
  assert (P : 0 < Qpower 2 (-1022)) by reflexivity.
  destruct (Qeq_bool x (7 # 200)) eqn:X.
  - apply Qeq_bool_iff in X. rewrite X. unfold eps, nearest_7_200.
    split; vm_compute; discriminate.
  - unfold eps. split; lra.
Qed.

Lemma rounding_can_add_a_pixel :
  resizeDims exact 200 200 (Some (7 # 1)) None = (7%Z, 7%Z)
  /\ resizeDims nearest7 200 200 (Some (7 # 1)) None = (8%Z, 8%Z).
Proof. split; vm_compute; reflexivity. Qed.



End ResizeProps.

(* ------------------------------------------------------------------ *)
(** ** The response cache                                              *)
(* ------------------------------------------------------------------ *)

Module CacheProps.
Import ImageCache.

Lemma in_keys (m : Cache) (k : string) (e : CacheEntry) :
  In (k, e) m -> In k (keys m).
Proof. intro H. exact (in_map fst m (k, e) H). Qed.

Lemma get_in (m : Cache) (k : string) (e : CacheEntry) :
  get k m = Some e -> In (k, e) m.
Proof.
  induction m as [|[k' e'] m IH]; simpl; [discriminate|].
  destruct (String.eqb_spec k k') as [->|N]; intro H.
  - injection H as ->. now left.
  - right. auto.
Qed.

Lemma in_get (m : Cache) (k : string) (e : CacheEntry) :
  NoDup (keys m) -> In (k, e) m -> get k m = Some e.
Proof.
  induction m as [|[k' e'] m IH]; simpl; intros ND HI; [contradiction|].
  inversion ND as [|? ? Hn ND']; subst.
  destruct HI as [E|HI].
  - injection E as -> ->. now rewrite String.eqb_refl.
  - destruct (String.eqb_spec k k') as [->|N]; [|auto].
    exfalso. apply Hn. exact (in_keys _ _ _ HI).
Qed.

(** *** [set] and [delete] *)

Lemma in_set (m : Cache) (k : string) (e : CacheEntry) (x : string * CacheEntry) :
  In x (set k e m) -> x = (k, e) \/ In x m.
Proof.
  induction m as [|[k' e'] m IH]; simpl.
  - intros [<-|[]]. now left.
  - destruct (String.eqb_spec k k') as [->|N]; simpl; intros [<-|H]; auto.
    destruct (IH H); auto.
Qed.

Lemma keys_set (m : Cache) (k : string) (e : CacheEntry) (k' : string) :
  In k' (keys (set k e m)) <-> k' = k \/ In k' (keys m).
Proof.
  induction m as [|[k1 e1] m IH]; simpl.
  - intuition congruence.
  - destruct (String.eqb_spec k k1) as [->|N]; simpl.
    + intuition congruence.
    + rewrite IH. intuition congruence.
Qed.

Lemma nodup_set (m : Cache) (k : string) (e : CacheEntry) :
  NoDup (keys m) -> NoDup (keys (set k e m)).
Proof.
  induction m as [|[k1 e1] m IH]; simpl; intro ND.
  - constructor; [intros []|constructor].
  - inversion ND as [|? ? Hn ND']; subst.
    destruct (String.eqb_spec k k1) as [->|N]; simpl.
    + now constructor.
    + constructor; [|auto].
      rewrite keys_set. intros [E|H]; [congruence|contradiction].
Qed.

Lemma length_set (m : Cache) (k : string) (e : CacheEntry) :
  (List.length m <= List.length (set k e m) <= S (List.length m))%nat.
Proof.
  induction m as [|[k1 e1] m IH]; simpl.
  - lia.
  - destruct (String.eqb_spec k k1); simpl; lia.
Qed.

Lemma size_set (m : Cache) (k : string) (e : CacheEntry) :
  size m <= size (set k e m) <= size m + 1.
Proof. unfold size. pose proof (length_set m k e). lia. Qed.

Lemma in_delete (m : Cache) (k : string) (x : string * CacheEntry) :
  In x (delete k m) -> In x m.
Proof.
  induction m as [|[k1 e1] m IH]; simpl; [tauto|].
  destruct (String.eqb_spec k k1); simpl; intuition.
Qed.

Lemma nodup_delete (m : Cache) (k : string) :
  NoDup (keys m) -> NoDup (keys (delete k m)).
Proof.
  induction m as [|[k1 e1] m IH]; simpl; intro ND; [constructor|].
  inversion ND as [|? ? Hn ND']; subst.
  destruct (String.eqb_spec k k1); simpl; [assumption|].
  constructor; [|auto].
  intro H. apply Hn. unfold keys in H. apply in_map_iff in H.
  destruct H as [[k2 e2] [E H]]. simpl in E. subst k2.
  exact (in_keys _ _ _ (in_delete _ _ _ H)).
Qed.

Lemma length_delete (m : Cache) (k : string) :
  In k (keys m) -> S (List.length (delete k m)) = List.length m.
Proof.
  induction m as [|[k1 e1] m IH]; simpl; [tauto|].
  destruct (String.eqb_spec k k1) as [->|N]; simpl; intros [E|H].
  - reflexivity.
  - reflexivity.
  - congruence.
  - now rewrite (IH H).
Qed.

Lemma size_delete (m : Cache) (k : string) :
  In k (keys m) -> size (delete k m) = size m - 1.
Proof. intro H. unfold size. pose proof (length_delete m k H). lia. Qed.

Lemma get_delete_same (m : Cache) (k : string) :
  NoDup (keys m) -> get k (delete k m) = None.
Proof.
  induction m as [|[k1 e1] m IH]; simpl; intro ND; [reflexivity|].
  inversion ND as [|? ? Hn ND']; subst.
  destruct (String.eqb_spec k k1) as [->|N]; simpl.
  - destruct (get k1 m) eqn:G; [|reflexivity].
    exfalso. apply Hn. exact (in_keys _ _ _ (get_in _ _ _ G)).
  - destruct (String.eqb_spec k k1); [contradiction|auto].
Qed.

Lemma get_delete_other (m : Cache) (k k' : string) :
  k' <> k -> get k' (delete k m) = get k' m.
Proof.
  intro N. induction m as [|[k1 e1] m IH]; simpl; [reflexivity|].
  destruct (String.eqb_spec k k1) as [->|N1]; simpl.
  - destruct (String.eqb_spec k' k1); [contradiction|reflexivity].
  - destruct (String.eqb_spec k' k1); auto.
Qed.

(** *** The scan of [evictOldestEntry] *)

Lemma older_cases (t : Z) (m : Cache) : noneOlder t m \/ hasOlder t m.
Proof.
  induction m as [|[k e] m IH].
  - left. intros ? ? [].
  - destruct (Z_lt_le_dec (timestamp e) t) as [L|G].
    + right. exists k, e. split; [now left|assumption].
    + destruct IH as [NO|[k' [e' [HI L]]]].
      * left. intros k' e' [E|HI]; [injection E as <- <-; assumption|eauto].
      * right. exists k', e'. split; [now right|assumption].
Qed.

Lemma scan_noneOlder (m : Cache) (oldestKey : option string) (oldestTime : Z) :
  noneOlder oldestTime m -> scanOldest m oldestKey oldestTime = oldestKey.
Proof.
  revert oldestKey oldestTime.
  induction m as [|[k e] m IH]; simpl; intros ok ot NO; [reflexivity|].
  assert (G : ot <= timestamp e) by (apply (NO k e); now left).
  destruct (Z.ltb_spec (timestamp e) ot); [lia|].
  apply IH. intros k' e' HI. apply (NO k' e'). now right.
Qed.

Lemma scan_hasOlder (m : Cache) (oldestKey : option string) (oldestTime : Z) :
  hasOlder oldestTime m ->
  exists k e, scanOldest m oldestKey oldestTime = Some k /\ In (k, e) m
              /\ timestamp e < oldestTime /\ noneOlder (timestamp e) m.
Proof.
  revert oldestKey oldestTime.
  induction m as [|[k e] m IH]; simpl; intros ok ot [k0 [e0 [HI L]]];
    [contradiction|].
  destruct (Z.ltb_spec (timestamp e) ot) as [Lt|Ge].
  - destruct (older_cases (timestamp e) m) as [NO|HO].
    + exists k, e. rewrite (scan_noneOlder m _ _ NO).
      repeat split; auto.
      intros k' e' [E|HI']; [injection E as <- <-; lia|eauto].
    + destruct (IH (Some k) (timestamp e) HO) as [k1 [e1 [S [HI1 [L1 NO1]]]]].
      exists k1, e1. repeat split; auto; [lia|].
      intros k' e' [E|HI']; [injection E as <- <-; lia|eauto].
  - destruct HI as [E|HI]; [injection E as <- <-; lia|].
    destruct (IH ok ot (ex_intro _ k0 (ex_intro _ e0 (conj HI L))))
      as [k1 [e1 [S [HI1 [L1 NO1]]]]].
    exists k1, e1. repeat split; auto.
    intros k' e' [E|HI']; [injection E as <- <-; lia|eauto].
Qed.

(** Nothing is evicted when no entry is strictly older than the clock. *)
Lemma evict_noneOlder (now : Z) (m : Cache) :
  noneOlder now m -> evictOldestEntry now m = m.
Proof.
  intro NO. unfold evictOldestEntry. now rewrite (scan_noneOlder m None now NO).
Qed.

(** With an entry strictly older than the clock, exactly one entry goes,
    and it carries a smallest time stamp. *)
Lemma evict_hasOlder (now : Z) (m : Cache) :
  wf m -> hasOlder now m ->
  exists k, isOldest k m
            /\ evictOldestEntry now m = delete k m
            /\ get k (evictOldestEntry now m) = None
            /\ (forall k', k' <> k -> get k' (evictOldestEntry now m) = get k' m)
            /\ size (evictOldestEntry now m) = size m - 1.
Proof.
  intros [ND NE] HO.
  destruct (scan_hasOlder m None now HO) as [k [e [S [HI [L NO]]]]].
  assert (K : k <> EmptyString).
  { intros ->. apply NE. exact (in_keys _ _ _ HI). }
  assert (E : evictOldestEntry now m = delete k m).
  { unfold evictOldestEntry. rewrite S. simpl.
    destruct (String.eqb_spec k ""); [contradiction|reflexivity]. }
  exists k. rewrite E. repeat split.
  - exists e. split; [exact (in_get _ _ _ ND HI)|exact NO].
  - apply get_delete_same, ND.
  - intros k' N. now apply get_delete_other.
  - apply size_delete. exact (in_keys _ _ _ HI).
Qed.

Lemma in_evict (now : Z) (m : Cache) (x : string * CacheEntry) :
  In x (evictOldestEntry now m) -> In x m.
Proof.
  unfold evictOldestEntry.
  destruct (scanOldest m None now) as [k|]; simpl; [|tauto].
  destruct (k =? "")%string; simpl; [tauto|apply in_delete].
Qed.

Lemma wf_evict (now : Z) (m : Cache) : wf m -> wf (evictOldestEntry now m).
Proof.
  intros [ND NE]. unfold evictOldestEntry.
  destruct (scanOldest m None now) as [k|]; simpl; [|now split].
  destruct (k =? "")%string; simpl; [now split|].
  split; [now apply nodup_delete|].
  intro H. apply NE. unfold keys in H. apply in_map_iff in H.
  destruct H as [[k2 e2] [E H]]. simpl in E. subst k2.
  exact (in_keys _ _ _ (in_delete _ _ _ H)).
Qed.

(** *** Population of the cache *)

Lemma wf_set (m : Cache) (k : string) (e : CacheEntry) :
  wf m -> k <> "" -> wf (set k e m).
Proof.
  intros [ND NE] K. split; [now apply nodup_set|].
  rewrite keys_set. intros [E|H]; [congruence|contradiction].
Qed.

Lemma wf_store (nowEvict nowStore : Z) (k : string) (payload : bytes)
    (mime : string) (m : Cache) :
  wf m -> k <> "" -> wf (store nowEvict nowStore k payload mime m).
Proof.
  intros W K. unfold store. apply wf_set; [|exact K].
  destruct (MAX_CACHE_SIZE <=? size m); [now apply wf_evict|exact W].
Qed.

Lemma stamped_store (t nowEvict nowStore : Z) (k : string) (payload : bytes)
    (mime : string) (m : Cache) :
  stampedUpTo t m -> t <= nowStore ->
  stampedUpTo nowStore (store nowEvict nowStore k payload mime m).
Proof.
  intros S L k' e' HI. unfold store in HI.
  apply in_set in HI. destruct HI as [E|HI].
  - injection E as _ ->. simpl. lia.
  - assert (HI' : In (k', e') m).
    { destruct (MAX_CACHE_SIZE <=? size m); [exact (in_evict _ _ _ HI)|exact HI]. }
    specialize (S k' e' HI'). lia.
Qed.

Lemma stamped_hasOlder (t now : Z) (m : Cache) :
  stampedUpTo t m -> t < now -> 0 < size m -> hasOlder now m.
Proof.
  intros S L P. destruct m as [|[k e] m]; [unfold size in P; simpl in P; lia|].
  exists k, e. split; [now left|].
  specialize (S k e (or_introl eq_refl)). lia.
Qed.

(** An insertion into a cache within its bound, at a moment when eviction
    can find an older entry, keeps the bound; at capacity it removes
    exactly one entry, a globally oldest one, before it adds the new one. *)
Lemma store_bounded (nowEvict nowStore : Z) (k : string) (payload : bytes)
    (mime : string) (m : Cache) :
  wf m -> size m <= MAX_CACHE_SIZE ->
  (MAX_CACHE_SIZE <= size m -> hasOlder nowEvict m) ->
  size (store nowEvict nowStore k payload mime m) <= MAX_CACHE_SIZE
  /\ (MAX_CACHE_SIZE <= size m ->
      exists victim,
        isOldest victim m
        /\ store nowEvict nowStore k payload mime m
           = set k (mkEntry payload mime nowStore) (delete victim m)
        /\ size (delete victim m) = size m - 1).
Proof.
  intros W B HO. unfold store.
  destruct (Z.leb_spec MAX_CACHE_SIZE (size m)) as [Full|Room].
  - destruct (evict_hasOlder nowEvict m W (HO Full)) as [v [Old [E [_ [_ Sz]]]]].
    pose proof (size_set (evictOldestEntry nowEvict m) k
                  (mkEntry payload mime nowStore)) as S.
    split; [lia|].
    intros _. exists v. rewrite <- E. repeat split; [exact Old|exact Sz].
  - pose proof (size_set m k (mkEntry payload mime nowStore)) as S.
    split; [lia|]. intro Full. lia.
Qed.

Lemma get_set_other (m : Cache) (k k' : string) (e : CacheEntry) :
  k' <> k -> get k' (set k e m) = get k' m.
Proof.
  intro N. induction m as [|[k1 e1] m IH]; simpl.
  - destruct (String.eqb_spec k' k); [contradiction|reflexivity].
  - destruct (String.eqb_spec k k1) as [->|N1]; simpl.
    + destruct (String.eqb_spec k' k1); [contradiction|reflexivity].
    + destruct (String.eqb_spec k' k1); [reflexivity|exact IH].
Qed.

Lemma get_delete_none (m : Cache) (k k' : string) :
  get k' m = None -> get k' (delete k m) = None.
Proof.
  induction m as [|[k1 e1] m IH]; simpl; [reflexivity|].
  destruct (String.eqb_spec k' k1) as [->|N1]; [discriminate|].
  intro G. destruct (String.eqb_spec k k1); simpl; [exact G|].
  destruct (String.eqb_spec k' k1); [contradiction|auto].
Qed.

(** A key that is absent stays absent when another key is stored. *)
Lemma get_store_other (nowEvict nowStore : Z) (k k' : string) (payload : bytes)
    (mime : string) (m : Cache) :
  k' <> k -> get k' m = None ->
  get k' (store nowEvict nowStore k payload mime m) = None.
Proof.
  intros N G. unfold store. rewrite get_set_other by exact N.
  destruct (MAX_CACHE_SIZE <=? size m); [|exact G].
  unfold evictOldestEntry.
  destruct (scanOldest m None nowEvict) as [v|]; simpl; [|exact G].
  destruct (v =? "")%string; simpl; [exact G|now apply get_delete_none].
Qed.

(** Under an advancing clock the bound is an invariant of every sequence
    of insertions. *)
Lemma insertAll_bounded (l : list Insertion) :
  forall (t : Z) (m : Cache),
    wf m -> size m <= MAX_CACHE_SIZE -> stampedUpTo t m -> ticking t l ->
    wf (insertAll m l) /\ size (insertAll m l) <= MAX_CACHE_SIZE.
Proof.
  induction l as [|i l IH]; simpl; intros t m W B S T; [now split|].
  destruct T as [Te [Ts [K T]]].
  apply (IH (ins_nowStore i)); [| | |exact T]; unfold insert.
  - now apply wf_store.
  - apply store_bounded; [exact W|exact B|].
    intro Full. apply (stamped_hasOlder t); [exact S|exact Te|].
    unfold MAX_CACHE_SIZE in Full. lia.
  - apply (stamped_store t); [exact S|lia].
Qed.

(** C2: the bound of 100 entries is broken by the code.  One hundred
    distinct keys inserted within one clock reading fill the cache; the next
    insertion within the same reading finds no entry strictly older than
    [Date.now()], evicts nothing, and leaves 101 entries; so do 101 requests
    to the route for distinct images. *)
Theorem cache_bound_broken_within_one_tick :
  MAX_CACHE_SIZE = 100
  /\ size (insertAll [] (burst 1000 100)) = 100
  /\ evictOldestEntry 1000 (insertAll [] (burst 1000 100))
     = insertAll [] (burst 1000 100)
  /\ size (insertAll [] (burst 1000 101)) = 101
  /\ size (snd (ImageApp.serve (Samples.burstEnv 101) []
                  (Samples.burstRequests 1000 101))) = 101.
Proof. vm_compute. repeat split. Qed.

(** C3: eviction that runs at capacity can remove nothing.  One hundred
    requests to the route for distinct images, all stored within the clock
    reading 1000, leave one hundred entries, so the next request to store
    finds the cache at capacity and evicts at that same reading: no entry is
    strictly older than [Date.now()], the scan finds no key, and the entry
    with the smallest stamp, the first one inserted, is still there
    afterwards. *)
Theorem eviction_at_capacity_keeps_the_oldest :
  let env := Samples.burstEnv 101 in
  let full := snd (ImageApp.serve env [] (Samples.burstRequests 1000 100)) in
  let next := ImageApp.mkRequest (idOf 101 ++ ".jpg") None
                (ImageApp.mkQuery (Some "png") None None) in
  let after := snd (ImageApp.imageApp env (Samples.at_ 1000) full next) in
  MAX_CACHE_SIZE <= size full
  /\ isOldest "a_png_auto_auto" full
  /\ evictOldestEntry 1000 full = full
  /\ ImageApp.hasHeader "X-Cache" "MISS"
       (fst (ImageApp.imageApp env (Samples.at_ 1000) full next))
  /\ after
     = List.app full [((idOf 101 ++ "_png_auto_auto")%string,
                       mkEntry Samples.encoded "image/png" 1000)]
  /\ get "a_png_auto_auto" after = Some (mkEntry Samples.encoded "image/png" 1000)
  /\ size after = 101.
Proof.
  cbv zeta.
  split; [vm_compute; discriminate|].
  split.
  { exists (mkEntry Samples.encoded "image/png" 1000).
    split; [vm_compute; reflexivity|].
    assert (A : forallb (fun ke => 1000 <=? timestamp (snd ke))
                  (snd (ImageApp.serve (Samples.burstEnv 101) []
                          (Samples.burstRequests 1000 100))) = true)
      by (vm_compute; reflexivity).
    rewrite forallb_forall in A.
    intros k' e' I. apply A in I. cbv beta in I. apply Z.leb_le in I.
    exact I. }
  split; [vm_compute; reflexivity|].
  split; [vm_compute; reflexivity|].
  split; [vm_compute; reflexivity|].
  split; vm_compute; reflexivity.
Qed.

End CacheProps.

(* ------------------------------------------------------------------ *)
(** ** The image route                                                 *)
(* ------------------------------------------------------------------ *)

Module RouteProps.
Import ImageApp.

(** Splits on the test of the next [if] or [match] of the goal. *)
Ltac branch :=
  match goal with
  | |- context [if ?b then _ else _] => destruct b eqn:?
  | |- context [match ?o with Some _ => _ | None => _ end] => destruct o eqn:?
  end.

Section WithEnv.

Variable env : Env.

(** *** Format negotiation *)

(** For a format parameter that is absent or non-empty, the resolution
    order is: the parameter, else webp under the three negotiation
    conditions, else the format of the request path. *)
Lemma negotiateFormat_resolution (req : Request) :
  format (query req) <> Some "" ->
  negotiateFormat env req = spec_negotiateFormat env req.
Proof.
  intro N. unfold negotiateFormat, spec_negotiateFormat, requestedFormat.
  destruct (format (query req)) as [f|]; simpl.
  - destruct (String.eqb_spec f ""); [congruence|reflexivity].
  - destruct (acceptsWebP req); simpl; [|reflexivity].
    destruct (Js.slice1 (reqImgExt req) =? "webp")%string; simpl; reflexivity.
Qed.

(** *** The cache is written by the transcode branch only *)

Lemma transcode_frame (clock : Clock) (cache : ImageCache.Cache) (req : Request)
    (resImgFormat origImgFormat : string) (origBinary : bytes) (cacheKey : string) :
  let r := transcode env clock cache req resImgFormat origImgFormat origBinary
             cacheKey in
  (isFail (fst r) /\ snd r = cache)
  \/ (hasHeader "X-Cache" "MISS" (fst r)
      /\ exists resBinary,
           hasBody resBinary (fst r)
           /\ snd r = ImageCache.store (atEvict clock) (atStore clock) cacheKey
                        resBinary (IMAGE_MIME_TYPE resImgFormat) cache).
Proof.
  unfold transcode, orThrow.
  repeat (branch; [|left; split; [exact I|reflexivity]]).
  right. split.
  - unfold varyOnNegotiation. branch; reflexivity.
  - eexists. split; reflexivity.
Qed.

Lemma imageApp_frame (clock : Clock) (cache : ImageCache.Cache) (req : Request) :
  let r := imageApp env clock cache req in
  snd r = cache \/ hasHeader "X-Cache" "MISS" (fst r).
Proof.
  unfold imageApp. cbv zeta.
  destruct (negb (isSupportedImageFormat (negotiateFormat env req)));
    [now left|].
  destruct (globby env (reqImgId req)) as [|[origFilePath origBinary] rest];
    [now left|].
  destruct (negb (isSupportedImageFormat (Js.slice1 (Path.extname origFilePath))));
    [now left|].
  destruct ((negotiateFormat env req =? "webp")%string
            && (Js.slice1 (Path.extname origFilePath) =? "webp")%string
            && noSize req); [now left|].
  destruct (ImageCache.lookup _ _ cache); [now left|].
  destruct ((negotiateFormat env req =? Js.slice1 (Path.extname origFilePath))%string
            && noSize req); [now left|].
  match goal with
  | |- context [transcode ?e ?c ?m ?r ?f ?g ?b ?k] =>
      destruct (transcode_frame c m r f g b k) as [[_ E]|[M _]]
  end; [left; exact E|right; exact M].
Qed.

Lemma hit_is_not_miss (o : Outcome) :
  hasHeader "X-Cache" "HIT" o -> ~ hasHeader "X-Cache" "MISS" o.
Proof.
  destruct o as [r|]; simpl; [|tauto].
  intros H M. rewrite H in M. discriminate M.
Qed.

Lemma fail_is_not_miss (o : Outcome) :
  isFail o -> ~ hasHeader "X-Cache" "MISS" o.
Proof. destruct o; simpl; tauto. Qed.

(** A request answered from the cache leaves the cache as it was. *)
Lemma imageApp_hit_frame (clock : Clock) (cache : ImageCache.Cache) (req : Request) :
  hasHeader "X-Cache" "HIT" (fst (imageApp env clock cache req)) ->
  snd (imageApp env clock cache req) = cache.
Proof.
  intro H. destruct (imageApp_frame clock cache req) as [E|M]; [exact E|].
  exfalso. exact (hit_is_not_miss _ H M).
Qed.

Lemma serve_hits_frame (reads : list (Clock * Request)) (cache : ImageCache.Cache) :
  Forall (hasHeader "X-Cache" "HIT") (fst (serve env cache reads)) ->
  snd (serve env cache reads) = cache.
Proof.
  revert cache. induction reads as [|[clock req] reads IH]; intros cache;
    [reflexivity|].
  simpl.
  pose proof (imageApp_hit_frame clock cache req) as F.
  destruct (imageApp env clock cache req) as [o cache1]; simpl in F.
  specialize (IH cache1).
  destruct (serve env cache1 reads) as [os cache2]; simpl in *.
  intro A. inversion A as [|? ? Ho Hos]; subst.
  rewrite (IH Hos). exact (F Ho).
Qed.

(** *** The bypass branches *)

Lemma originOf_globby (req : Request) (f : string * bytes) :
  originOf env req = Some f -> exists rest, globby env (reqImgId req) = f :: rest.
Proof.
  unfold originOf. destruct (globby env (reqImgId req)) as [|g rest]; simpl;
    [discriminate|].
  intro E. injection E as ->. now exists rest.
Qed.

(** When the target format is the origin's format and no size is asked for,
    the origin file is streamed and the cache is left alone, as long as the
    formats are webp or the cache holds no fresh entry under the request's
    key; [Vary: Accept] is then set exactly for webp. *)
Lemma bypass_branch (clock : Clock) (cache : ImageCache.Cache) (req : Request)
    (origFilePath : string) (origBinary : bytes) :
  originOf env req = Some (origFilePath, origBinary) ->
  Js.slice1 (Path.extname origFilePath) = negotiateFormat env req ->
  isSupportedImageFormat (negotiateFormat env req) = true ->
  noSize req = true ->
  negotiateFormat env req = "webp"
  \/ ImageCache.lookup (atLookup clock)
       (cacheKeyOf env req (negotiateFormat env req)) cache = None ->
  let r := imageApp env clock cache req in
  hasHeader "X-Cache" "BYPASS" (fst r)
  /\ hasBody origBinary (fst r)
  /\ snd r = cache
  /\ (hasHeader "Vary" "Accept" (fst r) <-> negotiateFormat env req = "webp").
Proof.
  intros O F S N C. destruct (originOf_globby req _ O) as [rest G].
  unfold imageApp. cbv zeta. rewrite S, G, F, S, N. simpl.
  destruct (String.eqb_spec (negotiateFormat env req) "webp") as [W|NW]; simpl.
  - repeat split; auto.
  - destruct C as [W|L]; [contradiction|]. rewrite L, String.eqb_refl. simpl.
    repeat split; try reflexivity.
    + intro V. discriminate V.
    + intro W. contradiction.
Qed.

(** *** Keys of the cache, and the caches the route can reach *)

Lemma split_at_underscore (a a' r r' : string) :
  noUnderscore a = true -> noUnderscore a' = true ->
  (a ++ "_" ++ r)%string = (a' ++ "_" ++ r')%string -> a = a' /\ r = r'.
Proof.
  revert a'. induction a as [|c a IH]; intros [|c' a'] Ha Ha' E; simpl in *.
  - injection E as E. now split.
  - injection E as Ec Er. subst c'. discriminate Ha'.
  - injection E as Ec Er. subst c. discriminate Ha.
  - injection E as Ec Er. subst c'.
    apply andb_prop in Ha. apply andb_prop in Ha'.
    destruct (IH a' (proj2 Ha) (proj2 Ha') Er) as [-> ->]. now split.
Qed.

Lemma supported_plain (f : string) :
  isSupportedImageFormat f = true -> noUnderscore f = true.
Proof.
  unfold isSupportedImageFormat, SUPPORTED_IMAGE_EXTENSIONS. simpl.
  rewrite !orb_true_iff, !String.eqb_eq.
  intros [->|[->|[->|[->|[->|[->|F]]]]]]; try reflexivity. discriminate F.
Qed.

(** A file name admitted by the validator has an identifier without
    underscores. *)
Lemma idChar_plain (s : string) :
  allChars isIdChar s = true -> noUnderscore s = true.
Proof.
  induction s as [|c s IH]; simpl; [reflexivity|].
  intro H. apply andb_prop in H. destruct H as [Hc Hs].
  rewrite (IH Hs), andb_true_r.
  destruct (Ascii.eqb_spec c "_") as [->|_]; [discriminate Hc|reflexivity].
Qed.

Lemma word_has_no_dot (s : string) :
  allChars isWordChar s = true -> Path.splitLastDot s = None.
Proof.
  induction s as [|c s IH]; simpl; [reflexivity|].
  intro H. apply andb_prop in H. destruct H as [Hc Hs].
  rewrite (IH Hs).
  destruct (Ascii.eqb_spec c ".") as [->|_]; [discriminate Hc|reflexivity].
Qed.

Lemma matchRest_split (s : string) :
  matchRest s = true ->
  (Path.splitLastDot s = None /\ allChars isIdChar s = true)
  \/ exists p e, Path.splitLastDot s = Some (p, e) /\ allChars isIdChar p = true.
Proof.
  induction s as [|c s IH]; simpl; [now left|].
  destruct (isIdChar c) eqn:Hc.
  - intro M. destruct (IH M) as [[N A]|[p [e [S A]]]].
    + left. rewrite N, A.
      destruct (Ascii.eqb_spec c ".") as [->|_]; [discriminate Hc|now split].
    + right. exists (String c p), e. rewrite S. simpl. now rewrite Hc, A.
  - intro M. apply andb_prop in M. destruct M as [D W].
    right. exists EmptyString, (String c s).
    rewrite (word_has_no_dot s W), D. now split.
Qed.

Lemma validator_gives_validRequest (req : Request) :
  validImageFile (imageFile req) = true -> validRequest req.
Proof.
  unfold validRequest, reqImgId, Path.name, validImageFile.
  destruct (imageFile req) as [|c s]; [discriminate|].
  intro V. apply andb_prop in V. destruct V as [Hc M].
  assert (Hdot : Ascii.eqb c "." = false)
    by (destruct (Ascii.eqb_spec c ".") as [->|_]; [discriminate Hc|reflexivity]).
  assert (Hplain : negb (Ascii.eqb c "_") = true)
    by (destruct (Ascii.eqb_spec c "_") as [->|_]; [discriminate Hc|reflexivity]).
  simpl.
  destruct (matchRest_split s M) as [[N A]|[p [e [S A]]]].
  - rewrite N, Hdot. simpl. now rewrite Hplain, (idChar_plain s A).
  - rewrite S. unfold Path.noExt. simpl.
    rewrite Hdot. simpl. now rewrite Hplain, (idChar_plain p A).
Qed.

Section Keys.

Hypothesis numerals : plainNumerals env.

Lemma dimension_plain (o : option Q) : noUnderscore (dimension env o) = true.
Proof. destruct o as [q|]; simpl; [apply numerals|reflexivity]. Qed.

Lemma dimension_null (o o' : option Q) :
  dimension env o = dimension env o' -> Js.isNull o = Js.isNull o'.
Proof.
  destruct o as [q|], o' as [q'|]; simpl; intro E; try reflexivity; exfalso.
  - exact (proj2 (numerals q) E).
  - exact (proj2 (numerals q') (eq_sym E)).
Qed.

Lemma cacheKeyOf_inj (req req' : Request) (f f' : string) :
  validRequest req -> validRequest req' ->
  isSupportedImageFormat f = true -> isSupportedImageFormat f' = true ->
  cacheKeyOf env req f = cacheKeyOf env req' f' ->
  reqImgId req = reqImgId req' /\ f = f' /\ noSize req = noSize req'.
Proof.
  intros V V' S S' E. unfold cacheKeyOf in E.
  destruct (split_at_underscore _ _ _ _ V V' E) as [Eid E1].
  destruct (split_at_underscore _ _ _ _ (supported_plain f S)
              (supported_plain f' S') E1) as [Ef E2].
  destruct (split_at_underscore _ _ _ _ (dimension_plain _) (dimension_plain _) E2)
    as [Ew Eh].
  split; [exact Eid|]. split; [exact Ef|].
  unfold noSize. now rewrite (dimension_null _ _ Ew), (dimension_null _ _ Eh).
Qed.

(** The cache changes only in the transcode branch, under the key of a
    request that does not qualify for the bypass. *)
Lemma imageApp_writes (clock : Clock) (cache : ImageCache.Cache) (req : Request) :
  let r := imageApp env clock cache req in
  snd r = cache
  \/ exists orig resBinary,
       originFormat env req = Some orig
       /\ isSupportedImageFormat (negotiateFormat env req) = true
       /\ (negotiateFormat env req =? orig)%string && noSize req = false
       /\ snd r = ImageCache.store (atEvict clock) (atStore clock)
                    (cacheKeyOf env req (negotiateFormat env req)) resBinary
                    (IMAGE_MIME_TYPE (negotiateFormat env req)) cache.
Proof.
  unfold imageApp, originFormat, originOf. cbv zeta.
  destruct (isSupportedImageFormat (negotiateFormat env req)) eqn:S; simpl;
    [|now left].
  destruct (globby env (reqImgId req)) as [|[origFilePath origBinary] rest];
    [now left|].
  destruct (negb (isSupportedImageFormat (Js.slice1 (Path.extname origFilePath))));
    [now left|].
  destruct ((negotiateFormat env req =? "webp")%string
            && (Js.slice1 (Path.extname origFilePath) =? "webp")%string
            && noSize req); [now left|].
  destruct (ImageCache.lookup _ _ cache); [now left|].
  destruct ((negotiateFormat env req =? Js.slice1 (Path.extname origFilePath))%string
            && noSize req) eqn:B; [now left|].
  match goal with
  | |- context [transcode ?e ?c ?m ?r ?f ?g ?b ?k] =>
      destruct (transcode_frame c m r f g b k) as [[_ E]|[_ [resBinary [_ E]]]]
  end; [left; exact E|right].
  exists (Js.slice1 (Path.extname origFilePath)), resBinary. simpl.
  repeat split; [exact B|exact E].
Qed.

Lemma originFormat_of_id (req req' : Request) :
  reqImgId req = reqImgId req' -> originFormat env req = originFormat env req'.
Proof. intro E. unfold originFormat, originOf. now rewrite E. Qed.

Lemma bypassFree_step (clock : Clock) (cache : ImageCache.Cache) (req : Request) :
  validRequest req -> bypassFree env cache ->
  bypassFree env (snd (imageApp env clock cache req)).
Proof.
  intros V Inv.
  destruct (imageApp_writes clock cache req) as [E|[orig [resBinary [O [S [B E]]]]]];
    rewrite E; [exact Inv|].
  intros req' f V' N' O' S'.
  apply CacheProps.get_store_other; [|now apply Inv].
  intro K.
  destruct (cacheKeyOf_inj req' req f (negotiateFormat env req) V' V S' S K)
    as [Eid [Ef En]].
  rewrite (originFormat_of_id req' req Eid), O in O'. injection O' as <-.
  rewrite <- Ef, <- En, N', String.eqb_refl in B. discriminate B.
Qed.

Lemma reachable_bypassFree (cache : ImageCache.Cache) :
  reachable env cache -> bypassFree env cache.
Proof.
  induction 1 as [|cache clock req R IH V].
  - intros req f _ _ _ _. reflexivity.
  - now apply bypassFree_step.
Qed.

(** On every cache the route can reach, a validated request whose target
    format is the origin's format and that asks for no size is answered
    with the origin file and [X-Cache: BYPASS]; the cache neither yields nor
    gains an entry; [Vary: Accept] is set exactly for webp. *)
Lemma bypass_on_reachable (clock : Clock) (cache : ImageCache.Cache) (req : Request)
    (origFilePath : string) (origBinary : bytes) :
  reachable env cache -> validRequest req ->
  originOf env req = Some (origFilePath, origBinary) ->
  Js.slice1 (Path.extname origFilePath) = negotiateFormat env req ->
  isSupportedImageFormat (negotiateFormat env req) = true ->
  noSize req = true ->
  let r := imageApp env clock cache req in
  hasHeader "X-Cache" "BYPASS" (fst r)
  /\ hasBody origBinary (fst r)
  /\ snd r = cache
  /\ (hasHeader "Vary" "Accept" (fst r) <-> negotiateFormat env req = "webp").
Proof.
  intros R V O F S N. apply (bypass_branch clock cache req origFilePath origBinary);
    try assumption.
  right. unfold ImageCache.lookup.
  rewrite (reachable_bypassFree cache R req (negotiateFormat env req) V N); auto.
  unfold originFormat. rewrite O. simpl. now rewrite F.
Qed.

End Keys.

(** *** Error statuses *)

Lemma imageApp_status (clock : Clock) (cache : ImageCache.Cache) (req : Request) :
  In (statusOf (fst (imageApp env clock cache req))) [200; 404; 500; 501].
Proof.
  unfold imageApp. cbv zeta.
  destruct (negb (isSupportedImageFormat (negotiateFormat env req)));
    [simpl; tauto|].
  destruct (globby env (reqImgId req)) as [|[origFilePath origBinary] rest];
    [simpl; tauto|].
  destruct (negb (isSupportedImageFormat (Js.slice1 (Path.extname origFilePath))));
    [simpl; tauto|].
  destruct ((negotiateFormat env req =? "webp")%string
            && (Js.slice1 (Path.extname origFilePath) =? "webp")%string
            && noSize req); [simpl; tauto|].
  destruct (ImageCache.lookup _ _ cache); [simpl; tauto|].
  destruct ((negotiateFormat env req =? Js.slice1 (Path.extname origFilePath))%string
            && noSize req); [simpl; tauto|].
  unfold transcode, orThrow.
  repeat (branch; [|simpl; tauto]). simpl; tauto.
Qed.

(** C7 (amended): every request ends in exactly one outcome, with status
    200, 404, 500 or 501.  The checks run in this order: 501 when the
    resolved target format is not a supported tag; otherwise 404 when no
    file of the store matches the identifier; otherwise 500 when the
    extension of the origin file is not a supported tag.  On every error
    outcome the cache is left as it was. *)
Theorem error_statuses_in_guard_order (clock : Clock) (cache : ImageCache.Cache)
    (req : Request) :
  let r := imageApp env clock cache req in
  In (statusOf (fst r)) [200; 404; 500; 501]
  /\ (isSupportedImageFormat (negotiateFormat env req) = false ->
      isFail (fst r) /\ statusOf (fst r) = 501)
  /\ (isSupportedImageFormat (negotiateFormat env req) = true ->
      originOf env req = None ->
      isFail (fst r) /\ statusOf (fst r) = 404)
  /\ (isSupportedImageFormat (negotiateFormat env req) = true ->
      forall f, originFormat env req = Some f ->
      isSupportedImageFormat f = false ->
      isFail (fst r) /\ statusOf (fst r) = 500)
  /\ (isFail (fst r) -> snd r = cache).
Proof.
  cbv zeta. split; [apply imageApp_status|].
  split; [|split; [|split]].
  - intro U. unfold imageApp. cbv zeta. rewrite U. simpl. now split.
  - intros S O. unfold imageApp, originOf in *. cbv zeta. rewrite S. simpl.
    destruct (globby env (reqImgId req)); [simpl; now split|discriminate O].
  - intros S f O U. unfold imageApp, originFormat, originOf in *. cbv zeta.
    rewrite S. simpl.
    destruct (globby env (reqImgId req)) as [|[origFilePath origBinary] rest];
      [discriminate O|].
    simpl in O. injection O as <-. rewrite U. simpl. now split.
  - intro E. destruct (imageApp_frame clock cache req) as [K|M]; [exact K|].
    exfalso. exact (fail_is_not_miss _ E M).
Qed.

(** C4: a lookup leaves the cache as it is.  The check of the route reads
    the map and compares the age with [CACHE_TTL]; an entry of age at least
    [CACHE_TTL] is a miss and stays in the map with its time stamp.  Any
    number of requests answered from the cache ([X-Cache: HIT]) leave the
    cache unchanged, so after them the entry stamped T is still found with
    stamp T and is a miss at every time from T + CACHE_TTL on. *)
Theorem lookup_never_moves_expiry (cache : ImageCache.Cache)
    (reads : list (Clock * Request)) (k : string) (e : ImageCache.CacheEntry)
    (now : Z) :
  ImageCache.get k cache = Some e ->
  Forall (hasHeader "X-Cache" "HIT") (fst (serve env cache reads)) ->
  ImageCache.CACHE_TTL <= now - ImageCache.timestamp e ->
  snd (serve env cache reads) = cache
  /\ ImageCache.get k (snd (serve env cache reads)) = Some e
  /\ ImageCache.lookup now k (snd (serve env cache reads)) = None.
Proof.
  intros G H Age. rewrite (serve_hits_frame reads cache H).
  split; [reflexivity|]. split; [exact G|].
  unfold ImageCache.lookup. rewrite G.
  destruct (Z.ltb_spec (now - ImageCache.timestamp e) ImageCache.CACHE_TTL);
    [lia|reflexivity].
Qed.

End WithEnv.

(** Two reads of the warm entry at 1005 and 2000 are hits; the entry
    stamped 1000 is a miss one hour and one millisecond later. *)
Lemma lookup_never_moves_expiry_witness :
  snd (serve Samples.env Samples.warm
         [(Samples.at_ 1005, Samples.resized); (Samples.at_ 2000, Samples.resized)])
    = Samples.warm
  /\ ImageCache.get "abc_png_100_50" Samples.warm
     = Some (ImageCache.mkEntry Samples.encoded "image/png" 1000)
  /\ ImageCache.lookup 3601001 "abc_png_100_50" Samples.warm = None.
Proof.
  pose proof (lookup_never_moves_expiry Samples.env Samples.warm
                [(Samples.at_ 1005, Samples.resized);
                 (Samples.at_ 2000, Samples.resized)]
                "abc_png_100_50"
                (ImageCache.mkEntry Samples.encoded "image/png" 1000)
                3601001) as T.
  assert (G : ImageCache.get "abc_png_100_50" Samples.warm
              = Some (ImageCache.mkEntry Samples.encoded "image/png" 1000))
    by reflexivity.
  assert (H : Forall (hasHeader "X-Cache" "HIT")
                (fst (serve Samples.env Samples.warm
                        [(Samples.at_ 1005, Samples.resized);
                         (Samples.at_ 2000, Samples.resized)]))).
  { vm_compute. repeat constructor. }
  assert (A : ImageCache.CACHE_TTL <= 3601001 - 1000) by (vm_compute; discriminate).
  destruct (T G H A) as [T1 [T2 T3]].
  split; [exact T1|]. split; [exact G|].
  rewrite T1 in T3. exact T3.
Defined.

(** The sample store meets the assumptions of the reachability lemmas. *)
Lemma uint_numeral_plain (d : Decimal.uint) :
  noUnderscore (NilEmpty.string_of_uint d) = true.
Proof. induction d; simpl; auto. Qed.

Lemma samples_plainNumerals : plainNumerals Samples.env.
Proof.
  intro q. simpl. unfold Samples.wholeToString.
  destruct (Z.to_int (Qfloor q)) as [d|d]; simpl.
  - destruct d; simpl; split; try discriminate;
      try reflexivity; apply uint_numeral_plain.
  - split; [|discriminate].
    destruct d; simpl; try reflexivity; apply uint_numeral_plain.
Qed.

Lemma samples_warm_reachable : reachable Samples.env Samples.warm.
Proof.
  unfold Samples.warm. apply reach_serve; [apply reach_empty|reflexivity].
Qed.

(** [GET /images/abc.png] on the warm cache: the png file is streamed and
    the cache stays as it is. *)
Example bypass_on_reachable_png :
  let r := imageApp Samples.env (Samples.at_ 2000) Samples.warm Samples.plainPng in
  hasHeader "X-Cache" "BYPASS" (fst r)
  /\ hasBody Samples.pngBytes (fst r)
  /\ snd r = Samples.warm
  /\ (hasHeader "Vary" "Accept" (fst r)
      <-> negotiateFormat Samples.env Samples.plainPng = "webp").
Proof.
  apply (bypass_on_reachable Samples.env samples_plainNumerals (Samples.at_ 2000)
           Samples.warm Samples.plainPng "abc.png" Samples.pngBytes);
    try reflexivity.
  exact samples_warm_reachable.
Qed.

(** C5: an empty [format] parameter falls between the two tests of the
    code.  [format ?? ext] keeps the empty string, [!format] treats it as
    absent: with [Accept: image/webp] and a webp sibling the target is webp,
    not the parameter; without them the target is the empty string, not the
    format [png] of the request path, and the request ends in 501. *)
Theorem empty_format_parameter_falls_between_tests :
  format (query Samples.emptyFormatAcceptingWebp) = Some ""
  /\ negotiateFormat Samples.env Samples.emptyFormatAcceptingWebp = "webp"
  /\ spec_negotiateFormat Samples.env Samples.emptyFormatAcceptingWebp = ""
  /\ negotiateFormat Samples.env Samples.emptyFormatPlain = ""
  /\ Js.slice1 (reqImgExt Samples.emptyFormatPlain) = "png"
  /\ statusOf (fst (imageApp Samples.env (Samples.at_ 5) [] Samples.emptyFormatPlain))
     = 501.
Proof. vm_compute. repeat split. Qed.

(** C6: the webp bypass sets [Vary: Accept] also when the format was given
    explicitly.  [GET /images/beef?format=webp] streams [beef.webp] with
    [X-Cache: BYPASS], leaves the cache empty and carries [Vary: Accept],
    while the transcode branch for [GET /images/abc.png?format=webp] sets no
    [Vary] header. *)
Theorem bypass_sets_vary_for_explicit_webp :
  let r := imageApp Samples.env (Samples.at_ 5) [] Samples.explicitWebp in
  let t := imageApp Samples.env (Samples.at_ 5) [] Samples.explicitWebpFromPng in
  negotiated Samples.explicitWebp = false
  /\ hasHeader "X-Cache" "BYPASS" (fst r)
  /\ hasBody Samples.webpBytes (fst r)
  /\ snd r = []
  /\ hasHeader "Vary" "Accept" (fst r)
  /\ hasHeader "X-Cache" "MISS" (fst t)
  /\ noHeader "Vary" (fst t).
Proof. vm_compute. repeat split. Qed.

(** C7, the claim as stated (404 whenever no file matches) fails:
    [GET /images/dead] names no file of the store, and the request ends in
    501 because the empty target format is checked first. *)
Lemma not_found_is_checked_after_format :
  ~ (forall (env : Env) (clock : Clock) (cache : ImageCache.Cache) (req : Request),
        originOf env req = None ->
        statusOf (fst (imageApp env clock cache req)) = 404).
Proof.
  intro C.
  specialize (C Samples.env (Samples.at_ 5) [] Samples.missingNoExt eq_refl).
  vm_compute in C. discriminate C.
Qed.

End RouteProps.

(* ------------------------------------------------------------------ *)
(** ** Headers and the two post-processing middlewares                 *)
(* ------------------------------------------------------------------ *)

Module HeadersProps.
Import Headers.

Lemma find_update_same (k : string) (f : option string -> string) (h : t) :
  find k (update k f h) = Some (f (find k h)).
Proof.
  induction h as [|[k' v] h IH]; simpl.
  - now rewrite String.eqb_refl.
  - destruct (String.eqb_spec k k') as [->|N]; simpl.
    + now rewrite String.eqb_refl.
    + destruct (String.eqb_spec k k'); [contradiction|exact IH].
Qed.

Lemma find_update_other (k k' : string) (f : option string -> string) (h : t) :
  k <> k' -> find k' (update k f h) = find k' h.
Proof.
  intro N. induction h as [|[k1 v] h IH]; simpl.
  - destruct (String.eqb_spec k' k); [congruence|reflexivity].
  - destruct (String.eqb_spec k k1) as [->|N1]; simpl.
    + destruct (String.eqb_spec k' k1); [congruence|reflexivity].
    + destruct (String.eqb_spec k' k1); [reflexivity|exact IH].
Qed.

Lemma find_remove_same (k : string) (h : t) : find k (remove k h) = None.
Proof.
  induction h as [|[k1 v] h IH]; simpl; [reflexivity|].
  destruct (String.eqb_spec k k1) as [->|N]; simpl; [exact IH|].
  destruct (String.eqb_spec k k1); [contradiction|exact IH].
Qed.

Lemma find_remove_other (k k' : string) (h : t) :
  k <> k' -> find k' (remove k h) = find k' h.
Proof.
  intro N. induction h as [|[k1 v] h IH]; simpl; [reflexivity|].
  destruct (String.eqb_spec k k1) as [->|N1]; simpl.
  - destruct (String.eqb_spec k' k1); [congruence|exact IH].
  - destruct (String.eqb_spec k' k1); [reflexivity|exact IH].
Qed.

(** [set] leaves exactly the value set, whatever was there before. *)
Lemma header_get_set (name value : string) (h : t) :
  get name (set name value h) = Some value.
Proof. unfold get, set. apply find_update_same. Qed.

Lemma header_get_set_other (name name' value : string) (h : t) :
  lower name <> lower name' -> get name' (set name value h) = get name' h.
Proof. unfold get, set. apply find_update_other. Qed.

Lemma header_get_append (name value : string) (h : t) :
  get name (append name value h)
  = Some match get name h with
         | None => value
         | Some old => (old ++ ", " ++ value)%string
         end.
Proof. unfold get, append. apply find_update_same. Qed.

Lemma header_get_append_other (name name' value : string) (h : t) :
  lower name <> lower name' -> get name' (append name value h) = get name' h.
Proof. unfold get, append. apply find_update_other. Qed.

Lemma header_get_delete (name : string) (h : t) : get name (delete name h) = None.
Proof. unfold get, delete. apply find_remove_same. Qed.

Lemma header_get_delete_other (name name' : string) (h : t) :
  lower name <> lower name' -> get name' (delete name h) = get name' h.
Proof. unfold get, delete. apply find_remove_other. Qed.

End HeadersProps.

Module CacheControlProps.
Import Http CacheControl.

(** C9: the stage sets exactly one [Cache-Control] value, replacing any
    value present before, and changes nothing else.  The value is the
    long-lived public directive for an image content type or a URL
    containing [/images/] or [/assets/], and for javascript or css content
    types; otherwise the private must-revalidate directive for json or html
    content types; otherwise [private, no-store]. *)
Theorem cache_control_sets_one_directive (url : string) (res : Response) :
  let contentType := Js.orElse (Headers.get "Content-Type" (headers res)) "" in
  let assetLike := Js.startsWith contentType "image/" || Js.includes url "/images/"
                   || Js.includes url "/assets/" in
  let scriptLike := Js.includes contentType "javascript"
                    || Js.includes contentType "css" in
  let dataLike := Js.includes contentType "json" || Js.includes contentType "html" in
  let out := cacheControlMiddleware url res in
  Headers.get "Cache-Control" (headers out)
    = Some (if assetLike || scriptLike then "public, max-age=31536000, immutable"
            else if dataLike then "private, max-age=0, must-revalidate"
            else "private, no-store")
  /\ status out = status res
  /\ body out = body res
  /\ (forall name, Headers.lower name <> "cache-control" ->
        Headers.get name (headers out) = Headers.get name (headers res)).
Proof.
  cbv zeta. unfold cacheControlMiddleware, withHeaders. simpl.
  split; [|split; [reflexivity|split; [reflexivity|]]].
  - rewrite HeadersProps.header_get_set. f_equal. unfold directive.
    destruct (Js.startsWith _ "image/" || Js.includes url "/images/"
              || Js.includes url "/assets/"); simpl; [reflexivity|].
    destruct (Js.includes _ "javascript" || Js.includes _ "css"); reflexivity.
  - intros name N. apply HeadersProps.header_get_set_other.
    intro E. apply N. symmetry. exact E.
Qed.

End CacheControlProps.

Module CompressProps.
Import Http Compress.

(** Not every declared length below 1024 leaves the response alone: a text
    response that declares [Content-Length: 0] and is requested with
    [Accept-Encoding: zstd] takes the zstd arm, which drops [Content-Length]
    and sets [Content-Encoding: zstd]. *)
Lemma zero_length_takes_zstd_arm :
  ~ (forall (encoding : option string -> list string -> string)
            (zstdCompress : bytes -> Z -> bytes)
            (acceptEncoding : option string) (res : Response) (n : Z),
        contentLengthOf res = Some n -> 0 <= n < 1024 ->
        let out := compressMiddleware encoding zstdCompress acceptEncoding res in
        body out = body res
        /\ Headers.get "Content-Encoding" (headers out)
           = Headers.get "Content-Encoding" (headers res)
        /\ Headers.get "Content-Length" (headers out)
           = Headers.get "Content-Length" (headers res)).
Proof.
  intro C.
  destruct (C Samples.stubEncoding Samples.stubZstd (Some "zstd")
              Samples.emptyText 0 eq_refl (conj (Z.le_refl 0) eq_refl))
    as [_ [E _]].
  vm_compute in E. discriminate E.
Qed.

Section WithLibraries.

Variable encoding : option string -> list string -> string.
Variable zstdCompress : bytes -> Z -> bytes.

Lemma markNoTransform_spec (res : Response) :
  body (markNoTransform res) = body res
  /\ status (markNoTransform res) = status res
  /\ Headers.get "Cache-Control" (headers (markNoTransform res))
     = Some (appended (Headers.get "Cache-Control" (headers res)))
  /\ (forall name, Headers.lower name <> "cache-control" ->
        Headers.get name (headers (markNoTransform res))
        = Headers.get name (headers res)).
Proof.
  unfold markNoTransform, withHeaders. simpl.
  split; [reflexivity|]. split; [reflexivity|]. split.
  - apply HeadersProps.header_get_append.
  - intros name N. apply HeadersProps.header_get_append_other.
    intro E. apply N. symmetry. exact E.
Qed.

Lemma zstdResponse_spec (res : Response) :
  body (zstdResponse zstdCompress res)
  = option_map
      (List.map (fun chunk => zstdCompress chunk (compressionLevel (contentTypeOf res))))
      (body res)
  /\ status (zstdResponse zstdCompress res) = status res
  /\ Headers.get "Content-Length" (headers (zstdResponse zstdCompress res)) = None
  /\ Headers.get "Content-Encoding" (headers (zstdResponse zstdCompress res))
     = Some "zstd"
  /\ Headers.get "Cache-Control" (headers (zstdResponse zstdCompress res))
     = Some (appended (Headers.get "Cache-Control" (headers res))).
Proof.
  unfold zstdResponse, withHeaders. simpl.
  split; [reflexivity|]. split; [reflexivity|]. split; [|split].
  - rewrite HeadersProps.header_get_set_other by (simpl; discriminate).
    rewrite HeadersProps.header_get_append_other by (simpl; discriminate).
    apply HeadersProps.header_get_delete.
  - apply HeadersProps.header_get_set.
  - rewrite HeadersProps.header_get_set_other by (simpl; discriminate).
    rewrite HeadersProps.header_get_append.
    rewrite HeadersProps.header_get_delete_other by (simpl; discriminate).
    reflexivity.
Qed.

Lemma small_iff (a : option Z) :
  Num.strictlyBetween 0 1024 a = true <-> exists n, a = Some n /\ 0 < n < 1024.
Proof.
  unfold Num.strictlyBetween. destruct a as [n|].
  - rewrite andb_true_iff, !Z.ltb_lt. split.
    + intro H. exists n. now split.
    + intros [m [E H]]. injection E as ->. exact H.
  - split; [discriminate|]. intros [m [E _]]. discriminate E.
Qed.

(** The rules as the stage applies them, in order, each one
    short-circuiting (lines 14-57).  A response whose [Content-Length]
    parses to a number strictly between 0 and 1024, or whose
    content type begins with [image/], or for which the negotiated encoding
    is not zstd, keeps status, body and every other header and gets
    [no-transform] appended to [Cache-Control].  Otherwise every chunk is
    compressed at level 6 for json, javascript or css content types, 5 for
    html, 3 for the rest; [Content-Length] is removed, [Content-Encoding] is
    [zstd] and [no-transform] is appended.  A response declaring 500 bytes
    keeps its body. *)
Theorem compression_rules_short_circuit (acceptEncoding : option string)
    (res : Response) :
  let contentType := contentTypeOf res in
  let small := Num.strictlyBetween 0 1024 (contentLengthOf res) in
  let image := Js.startsWith contentType "image/" in
  let accepted := (encoding acceptEncoding ["zstd"] =? "zstd")%string in
  let textual := Js.includes contentType "json" || Js.includes contentType "javascript"
                 || Js.includes contentType "css" in
  let level := if textual then 6 else if Js.includes contentType "html" then 5 else 3 in
  let out := compressMiddleware encoding zstdCompress acceptEncoding res in
  (small = true <-> exists n, contentLengthOf res = Some n /\ 0 < n < 1024)
  /\ (small || image || negb accepted = true ->
      out = markNoTransform res
      /\ body out = body res
      /\ status out = status res
      /\ Headers.get "Cache-Control" (headers out)
         = Some (appended (Headers.get "Cache-Control" (headers res)))
      /\ (forall name, Headers.lower name <> "cache-control" ->
            Headers.get name (headers out) = Headers.get name (headers res)))
  /\ (small || image || negb accepted = false ->
      body out = option_map (List.map (fun chunk => zstdCompress chunk level)) (body res)
      /\ status out = status res
      /\ Headers.get "Content-Length" (headers out) = None
      /\ Headers.get "Content-Encoding" (headers out) = Some "zstd"
      /\ Headers.get "Cache-Control" (headers out)
         = Some (appended (Headers.get "Cache-Control" (headers res))))
  /\ (contentLengthOf res = Some 500 ->
      body out = body res
      /\ Headers.get "Content-Encoding" (headers out)
         = Headers.get "Content-Encoding" (headers res)).
Proof.
  cbv zeta. split; [apply small_iff|].
  assert (M : forall b : bool,
             Num.strictlyBetween 0 1024 (contentLengthOf res)
             || Js.startsWith (contentTypeOf res) "image/"
             || negb (encoding acceptEncoding ["zstd"] =? "zstd")%string = b ->
             compressMiddleware encoding zstdCompress acceptEncoding res
             = if b then markNoTransform res else zstdResponse zstdCompress res).
  { intros b. unfold compressMiddleware. cbv zeta.
    destruct (Num.strictlyBetween 0 1024 (contentLengthOf res)); simpl;
      [intros <-; reflexivity|].
    destruct (Js.startsWith (contentTypeOf res) "image/"); simpl;
      [intros <-; reflexivity|].
    destruct (encoding acceptEncoding ["zstd"] =? "zstd")%string; simpl;
      intros <-; reflexivity. }
  split; [|split].
  - intro T. rewrite (M true T). split; [reflexivity|].
    apply markNoTransform_spec.
  - intro F. rewrite (M false F). apply zstdResponse_spec.
  - intro L. unfold compressMiddleware. cbv zeta. rewrite L. simpl.
    destruct (markNoTransform_spec res) as [B [_ [_ O]]].
    split; [exact B|]. apply O. simpl. discriminate.
Qed.

End WithLibraries.

(** Without a declared length the size rule does not apply: a 500-byte
    JSON response with no [Content-Length] header is compressed. *)
Example undeclared_small_response_is_compressed :
  let out := compressMiddleware Samples.stubEncoding Samples.stubZstd
               (Some "zstd") Samples.undeclaredJson in
  body Samples.undeclaredJson = Some [List.repeat Byte.x20 500]
  /\ body out = Some [Byte.x28 :: List.repeat Byte.x20 500]
  /\ Headers.get "Content-Encoding" (headers out) = Some "zstd".
Proof. vm_compute. repeat split. Qed.

(** C8: a response that declares a length below 1024 is not always left
    alone.  A text response with [Content-Length: 0], asked for with
    [Accept-Encoding: zstd], is not caught by the rule for small responses:
    it takes the zstd arm, which removes [Content-Length], sets
    [Content-Encoding: zstd] and pipes the body through the compressor,
    where the 500-byte response next to it is only marked [no-transform]. *)
Theorem declared_empty_response_is_compressed :
  let out := compressMiddleware Samples.stubEncoding Samples.stubZstd
               (Some "zstd") Samples.emptyText in
  Headers.get "Content-Length" (headers Samples.emptyText) = Some "0"
  /\ contentLengthOf Samples.emptyText = Some 0
  /\ Num.strictlyBetween 0 1024 (contentLengthOf Samples.emptyText) = false
  /\ out = zstdResponse Samples.stubZstd Samples.emptyText
  /\ out <> markNoTransform Samples.emptyText
  /\ Headers.get "Content-Length" (headers out) = None
  /\ Headers.get "Content-Encoding" (headers out) = Some "zstd"
  /\ compressMiddleware Samples.stubEncoding Samples.stubZstd (Some "zstd")
       Samples.smallJson
     = markNoTransform Samples.smallJson.
Proof.
  cbv zeta.
  split; [reflexivity|]. split; [reflexivity|]. split; [reflexivity|].
  split; [reflexivity|]. split; [vm_compute; discriminate|].
  split; [reflexivity|]. split; reflexivity.
Qed.

(** A 2000-byte JSON response asked for with [Accept-Encoding: zstd] comes
    back compressed, with [Content-Encoding: zstd] and no [Content-Length];
    the 500-byte one comes back as it was. *)
Example json_responses :
  let big := compressMiddleware Samples.stubEncoding Samples.stubZstd
               (Some "gzip, zstd") Samples.largeJson in
  let small := compressMiddleware Samples.stubEncoding Samples.stubZstd
                 (Some "gzip, zstd") Samples.smallJson in
  Headers.get "Content-Encoding" (headers big) = Some "zstd"
  /\ Headers.get "Content-Length" (headers big) = None
  /\ body big = Some [[Byte.x28; Byte.x7b; Byte.x7d]]
  /\ body small = body Samples.smallJson
  /\ Headers.get "Content-Encoding" (headers small) = None.
Proof. vm_compute. repeat split. Qed.

End CompressProps.

(* ------------------------------------------------------------------ *)
(** ** The service worker                                              *)
(* ------------------------------------------------------------------ *)

Module ServiceWorkerProps.
Import Http ServiceWorker.

(** *** [parseInt] reads back what [toString] writes *)

Ltac digit_value :=
  match goal with
  | |- context [Z.of_nat (nat_of_ascii ?c) - 48] =>
      let v := eval vm_compute in (Z.of_nat (nat_of_ascii c) - 48) in
      change (Z.of_nat (nat_of_ascii c) - 48) with v
  end.

Lemma digits_step (c : ascii) (k : Z) (s : string) (acc : option Z) :
  Num.digitValue c = Some k -> k < 10 ->
  Num.digits 10 (String c s) acc
  = Num.digits 10 s (Some (10 * Js.nullish acc 0 + k)).
Proof.
  intros D L. simpl. rewrite D.
  destruct (Z.ltb_spec k 10); [reflexivity|lia].
Qed.

Lemma digits_uint_acc (d : Decimal.uint) :
  forall acc : positive,
    Num.digits 10 (NilEmpty.string_of_uint d) (Some (Z.pos acc))
    = Some (Z.pos (Pos.of_uint_acc d acc)).
Proof.
  induction d; intro acc; cbn [NilEmpty.string_of_uint Pos.of_uint_acc];
    [reflexivity | ..];
    (erewrite digits_step; [|reflexivity|reflexivity]);
    cbn [Js.nullish]; rewrite <- IHd;
    apply (f_equal (fun a => Num.digits 10 _ (Some a))); digit_value; lia.
Qed.

Lemma digits_uint_zero (d : Decimal.uint) :
  Num.digits 10 (NilEmpty.string_of_uint d) (Some 0)
  = Some (Z.of_N (Pos.of_uint d)).
Proof.
  induction d; cbn [NilEmpty.string_of_uint Pos.of_uint]; [reflexivity | ..];
    (erewrite digits_step; [|reflexivity|reflexivity]); cbn [Js.nullish];
    digit_value; [exact IHd | ..]; apply digits_uint_acc.
Qed.

Lemma digits_uint (d : Decimal.uint) :
  d <> Decimal.Nil ->
  Num.digits 10 (NilEmpty.string_of_uint d) None
  = Some (Z.of_N (Pos.of_uint d)).
Proof.
  intro N. destruct d; [contradiction | ..];
    cbn [NilEmpty.string_of_uint Pos.of_uint];
    (erewrite digits_step; [|reflexivity|reflexivity]); cbn [Js.nullish];
    digit_value; [apply digits_uint_zero | ..]; apply digits_uint_acc.
Qed.

Lemma parseInt_unsigned (d : Decimal.uint) :
  d <> Decimal.Nil ->
  Num.parseInt (NilEmpty.string_of_uint d)
  = option_map (Z.mul 1) (Num.digits 10 (NilEmpty.string_of_uint d) None).
Proof.
  intro N. destruct d; [contradiction | ..]; try reflexivity.
  destruct d; reflexivity.
Qed.

Lemma parseInt_negative (d : Decimal.uint) :
  d <> Decimal.Nil ->
  Num.parseInt (String "-" (NilEmpty.string_of_uint d))
  = option_map (Z.mul (-1)) (Num.digits 10 (NilEmpty.string_of_uint d) None).
Proof.
  intro N. destruct d; [contradiction | ..]; try reflexivity.
  destruct d; reflexivity.
Qed.

Lemma to_uint_nonnil (p : positive) : Pos.to_uint p <> Decimal.Nil.
Proof.
  intro E. pose proof (DecimalPos.Unsigned.of_to p) as H. rewrite E in H.
  discriminate H.
Qed.

Lemma nilzero_nonnil (d : Decimal.uint) :
  d <> Decimal.Nil -> NilZero.string_of_uint d = NilEmpty.string_of_uint d.
Proof. destruct d; [contradiction|..]; reflexivity. Qed.

Lemma parseInt_toString (n : Z) : Num.parseInt (toString n) = Some n.
Proof.
  unfold toString. destruct n as [|p|p]; [reflexivity | ..];
    cbn [Z.to_int NilZero.string_of_int]; pose proof (to_uint_nonnil p) as N;
    rewrite (nilzero_nonnil _ N).
  - rewrite (parseInt_unsigned _ N), (digits_uint _ N),
      DecimalPos.Unsigned.of_to. reflexivity.
  - rewrite (parseInt_negative _ N), (digits_uint _ N),
      DecimalPos.Unsigned.of_to. reflexivity.
Qed.

Lemma toString_nonempty (n : Z) : toString n <> "".
Proof.
  intro E. pose proof (parseInt_toString n) as P. rewrite E in P. discriminate P.
Qed.

(** The copy stored at [t] is fresh exactly while its age is below
    [CACHE_DURATION]. *)
Lemma fresh_stamped (now t : Z) (res : Response) :
  fresh now (stamped t res) = (now - t <? CACHE_DURATION).
Proof.
  unfold fresh, stamped. simpl. rewrite HeadersProps.header_get_set. simpl.
  destruct (String.eqb_spec (toString t) "") as [E|_];
    [exfalso; exact (toString_nonempty t E)|].
  simpl. now rewrite parseInt_toString.
Qed.

(** Past the cache-first part, the answer is the network's, or the cached
    response when the network path fails. *)
Lemma onFetch_network (env : Env) (clock : Clock) (request : Request) :
  cacheFirst env (atCheck clock) request = None ->
  response (onFetch env clock request)
  = match fromNetwork env request with
    | Some r => Some r
    | None => cachesMatch env request
    end.
Proof.
  intro C. unfold onFetch, fromNetwork, offline. rewrite C.
  destruct (fetch env request) as [res|]; [|reflexivity].
  destruct (Headers.get "Content-Type" (headers res)) as [ct|]; [|reflexivity].
  destruct (ct =? "image/jxl")%string; [|reflexivity].
  destruct (transformJpegXLToBmp env res); reflexivity.
Qed.

(** X1: a GET request for a cacheable URL whose cached copy was stored by
    [onFetch] at time t is answered with that copy, without the network and
    without a new [cache.put], while less than 24 hours have passed since t;
    from 24 hours on the answer comes from the network path. *)
Theorem stored_copy_is_served_for_a_day (env : Env) (clock : Clock)
    (request : Request) (t : Z) (res : Response) :
  shouldCache (url request) = true ->
  method request = "GET" ->
  cachesMatch env request = Some (stamped t res) ->
  (atCheck clock - t < CACHE_DURATION ->
   onFetch env clock request = mkResult (Some (stamped t res)) [])
  /\ (CACHE_DURATION <= atCheck clock - t ->
      response (onFetch env clock request)
      = match fromNetwork env request with
        | Some r => Some r
        | None => Some (stamped t res)
        end).
Proof.
  intros S M C.
  assert (F : cacheFirst env (atCheck clock) request
              = if atCheck clock - t <? CACHE_DURATION
                then Some (stamped t res) else None).
  { unfold cacheFirst. rewrite S, M, C, fresh_stamped. reflexivity. }
  split; intro A.
  - unfold onFetch. rewrite F.
    destruct (Z.ltb_spec (atCheck clock - t) CACHE_DURATION); [reflexivity|lia].
  - rewrite onFetch_network, C; [reflexivity|]. rewrite F.
    destruct (Z.ltb_spec (atCheck clock - t) CACHE_DURATION); [lia|reflexivity].
Qed.

(** The script stored at 1000 is served from the cache at 5000, whatever
    the network would answer. *)
Lemma stored_copy_is_served_for_a_day_witness :
  onFetch Samples.swStored (mkClock 5000 5000) Samples.scriptRequest
  = mkResult (Some (stamped 1000 Samples.script)) [].
Proof.
  refine (proj1 (stored_copy_is_served_for_a_day Samples.swStored
                   (mkClock 5000 5000) Samples.scriptRequest 1000 Samples.script
                   _ _ _) _).
  - reflexivity.
  - reflexivity.
  - reflexivity.
  - vm_compute. reflexivity.
Defined.

(** X2: when the fetch rejects, [onFetch] answers with whatever response
    the cache holds for the request, whatever its age, its URL and the
    method, and rethrows only when the cache holds none; it stores
    nothing. *)
Theorem network_failure_falls_back_to_cache (env : Env) (clock : Clock)
    (request : Request) :
  fetch env request = None ->
  response (onFetch env clock request) = cachesMatch env request
  /\ puts (onFetch env clock request) = [].
Proof.
  intro N. unfold onFetch, offline. rewrite N.
  destruct (cacheFirst env (atCheck clock) request) as [cached|] eqn:C;
    [|now split].
  split; [|reflexivity]. simpl.
  unfold cacheFirst in C.
  destruct (shouldCache (url request) && (method request =? "GET")%string);
    [|discriminate C].
  destruct (cachesMatch env request) as [c|]; [|discriminate C].
  destruct (fresh (atCheck clock) c); [symmetry; exact C|discriminate C].
Qed.

(** Two days after the copy was stored and with the network down, the
    stale copy is still the answer. *)
Lemma network_failure_falls_back_to_cache_witness :
  response (onFetch Samples.swOffline (mkClock 172801000 172801000)
              Samples.scriptRequest)
  = Some (stamped 1000 Samples.script).
Proof.
  exact (proj1 (network_failure_falls_back_to_cache Samples.swOffline
                  (mkClock 172801000 172801000) Samples.scriptRequest eq_refl)).
Defined.

(** X3: [onFetch] issues at most one [cache.put]; it does so only for a
    cacheable URL after a fetch that returned an ok response, under the
    request itself, and what it stores is the response it hands back with
    [sw-cache-date] set to the clock reading, a copy that the freshness
    check accepts exactly while its age is below 24 hours. *)
Theorem puts_are_stamped_copies_of_the_answer (env : Env) (clock : Clock)
    (request rq : Request) (copy : Response) :
  In (rq, copy) (puts (onFetch env clock request)) ->
  puts (onFetch env clock request) = [(rq, copy)]
  /\ rq = request
  /\ shouldCache (url request) = true
  /\ (exists res, fetch env request = Some res /\ ok res = true)
  /\ (exists r, response (onFetch env clock request) = Some r
                /\ copy = stamped (atStamp clock) r)
  /\ (forall now, fresh now copy = (now - atStamp clock <? CACHE_DURATION)).
Proof.
  unfold onFetch, offline, putIfCacheable.
  destruct (cacheFirst env (atCheck clock) request); [intros []|].
  destruct (fetch env request) as [res|]; [|intros []].
  assert (K : forall r : Response,
            In (rq, copy)
               (if shouldCache (url request) && ok res
                then [(request, stamped (atStamp clock) r)] else []) ->
            (if shouldCache (url request) && ok res
             then [(request, stamped (atStamp clock) r)] else []) = [(rq, copy)]
            /\ rq = request
            /\ shouldCache (url request) = true
            /\ (exists res0, Some res = Some res0 /\ ok res0 = true)
            /\ (exists r0, Some r = Some r0 /\ copy = stamped (atStamp clock) r0)
            /\ (forall now, fresh now copy = (now - atStamp clock <? CACHE_DURATION))).
  { intro r. destruct (shouldCache (url request)) eqn:S; simpl; [|intros []].
    destruct (ok res) eqn:O; simpl; [|intros []].
    intros [E|[]]. injection E as <- <-.
    repeat split; eauto. intro now. apply fresh_stamped. }
  destruct (Headers.get "Content-Type" (headers res)) as [ct|]; [|apply K].
  destruct (ct =? "image/jxl")%string; [|apply K].
  destruct (transformJpegXLToBmp env res) as [transformedRes|]; [apply K|intros []].
Qed.

(** With an empty cache the script is fetched, handed back as it came and
    stored with the stamp 7000. *)
Lemma puts_are_stamped_copies_of_the_answer_witness :
  puts (onFetch Samples.swEmpty (mkClock 7000 7000) Samples.scriptRequest)
  = [(Samples.scriptRequest, stamped 7000 Samples.script)].
Proof.
  refine (proj1 (puts_are_stamped_copies_of_the_answer Samples.swEmpty
                   (mkClock 7000 7000) Samples.scriptRequest
                   Samples.scriptRequest (stamped 7000 Samples.script) _)).
  vm_compute. left. reflexivity.
Defined.

End ServiceWorkerProps.

(* ------------------------------------------------------------------ *)
(** ** More on the response cache                                      *)
(* ------------------------------------------------------------------ *)

Module CacheExtra.
Import ImageCache.

Lemma get_set_same (m : Cache) (k : string) (e : CacheEntry) :
  get k (set k e m) = Some e.
Proof.
  induction m as [|[k1 e1] m IH]; simpl.
  - now rewrite String.eqb_refl.
  - destruct (String.eqb_spec k k1) as [->|N]; simpl.
    + now rewrite String.eqb_refl.
    + destruct (String.eqb_spec k k1); [contradiction|exact IH].
Qed.

Lemma keys_set_present (m : Cache) (k : string) (e : CacheEntry) :
  In k (keys m) -> keys (set k e m) = keys m.
Proof.
  induction m as [|[k1 e1] m IH]; simpl; [tauto|].
  destruct (String.eqb_spec k k1) as [->|N]; simpl; [reflexivity|].
  intros [E|H]; [congruence|]. now rewrite (IH H).
Qed.

Lemma scan_first_minimum (m1 m2 : Cache) (k : string) (e : CacheEntry) :
  (forall k1 e1, In (k1, e1) m1 -> timestamp e < timestamp e1) ->
  noneOlder (timestamp e) m2 ->
  forall (oldestKey : option string) (oldestTime : Z),
    timestamp e < oldestTime ->
    scanOldest (m1 ++ (k, e) :: m2)%list oldestKey oldestTime = Some k.
Proof.
  intros H1 H2. induction m1 as [|[k1 e1] m1 IH]; intros ok ot L; simpl.
  - destruct (Z.ltb_spec (timestamp e) ot); [|lia].
    now apply CacheProps.scan_noneOlder.
  - assert (L1 : timestamp e < timestamp e1) by (apply (H1 k1 e1); now left).
    assert (H1' : forall k' e', In (k', e') m1 -> timestamp e < timestamp e').
    { intros k' e' HI. apply (H1 k' e'). now right. }
    destruct (timestamp e1 <? ot); apply IH; assumption.
Qed.

Lemma delete_middle (m1 m2 : Cache) (k : string) (e : CacheEntry) :
  ~ In k (keys m1) -> delete k (m1 ++ (k, e) :: m2)%list = (m1 ++ m2)%list.
Proof.
  induction m1 as [|[k1 e1] m1 IH]; simpl; intro N.
  - now rewrite String.eqb_refl.
  - destruct (String.eqb_spec k k1) as [->|_]; [exfalso; apply N; now left|].
    rewrite IH; [reflexivity|]. intro H. apply N. now right.
Qed.

(** X4: when some entry is strictly older than the clock, eviction removes
    exactly one entry of a map with unique non-empty keys: one with the
    smallest time stamp of all; every other key keeps its entry. *)
Theorem eviction_removes_a_globally_oldest_entry (now : Z) (m : Cache) :
  wf m -> hasOlder now m ->
  exists k e,
    get k m = Some e
    /\ (forall k' e', In (k', e') m -> timestamp e <= timestamp e')
    /\ get k (evictOldestEntry now m) = None
    /\ (forall k', k' <> k -> get k' (evictOldestEntry now m) = get k' m)
    /\ size (evictOldestEntry now m) = size m - 1.
Proof.
  intros W HO.
  destruct (CacheProps.evict_hasOlder now m W HO)
    as [k [[e [G Min]] [_ [Gone [Same Sz]]]]].
  exists k, e. repeat split; assumption.
Qed.

Lemma eviction_removes_a_globally_oldest_entry_witness :
  exists k e,
    get k Samples.twoEntries = Some e
    /\ (forall k' e', In (k', e') Samples.twoEntries -> timestamp e <= timestamp e')
    /\ get k (evictOldestEntry 2000 Samples.twoEntries) = None
    /\ (forall k', k' <> k ->
          get k' (evictOldestEntry 2000 Samples.twoEntries)
          = get k' Samples.twoEntries)
    /\ size (evictOldestEntry 2000 Samples.twoEntries)
       = size Samples.twoEntries - 1.
Proof.
  apply (eviction_removes_a_globally_oldest_entry 2000 Samples.twoEntries).
  - split.
    + repeat constructor; simpl; intuition discriminate.
    + simpl. intuition discriminate.
  - exists "aa_png_auto_auto", Samples.olderEntry. split; [now left|].
    reflexivity.
Defined.

(** X5: among entries that share the smallest time stamp, eviction removes
    the one inserted first and keeps the rest in their order. *)
Theorem eviction_breaks_ties_by_insertion_order (now : Z) (m1 m2 : Cache)
    (k : string) (e : CacheEntry) :
  k <> "" -> ~ In k (keys m1) ->
  timestamp e < now ->
  (forall k1 e1, In (k1, e1) m1 -> timestamp e < timestamp e1) ->
  (forall k2 e2, In (k2, e2) m2 -> timestamp e <= timestamp e2) ->
  evictOldestEntry now (m1 ++ (k, e) :: m2)%list = (m1 ++ m2)%list.
Proof.
  intros K N L H1 H2. unfold evictOldestEntry.
  rewrite (scan_first_minimum m1 m2 k e H1 H2 None now L). simpl.
  destruct (String.eqb_spec k ""); [contradiction|].
  now apply delete_middle.
Qed.

Lemma eviction_breaks_ties_by_insertion_order_witness :
  evictOldestEntry 2000 Samples.tied
  = [("cc_png_auto_auto", mkEntry Samples.encoded "image/png" 1007);
     ("bb_png_auto_auto", mkEntry Samples.encoded "image/png" 1005)].
Proof.
  apply (eviction_breaks_ties_by_insertion_order 2000
           [("cc_png_auto_auto", mkEntry Samples.encoded "image/png" 1007)]
           [("bb_png_auto_auto", mkEntry Samples.encoded "image/png" 1005)]
           "aa_png_auto_auto" (mkEntry Samples.encoded "image/png" 1005)).
  - discriminate.
  - simpl. intuition discriminate.
  - reflexivity.
  - intros k1 e1 [E|[]]. injection E as <- <-. reflexivity.
  - intros k2 e2 [E|[]]. injection E as <- <-. simpl. lia.
Defined.

(** X6: while the clock advances from one insertion to the next, every
    sequence of insertions keeps the keys unique and non-empty and the cache
    within [MAX_CACHE_SIZE] entries. *)
Theorem cache_bound_under_advancing_clock (l : list Insertion) (t : Z) (m : Cache) :
  wf m -> size m <= MAX_CACHE_SIZE -> stampedUpTo t m -> ticking t l ->
  wf (insertAll m l) /\ size (insertAll m l) <= MAX_CACHE_SIZE.
Proof. apply CacheProps.insertAll_bounded. Qed.

(** 101 insertions, one per millisecond, leave at most 100 entries. *)
Lemma cache_bound_under_advancing_clock_witness :
  size (insertAll [] (Samples.steady 101)) <= MAX_CACHE_SIZE.
Proof.
  refine (proj2 (cache_bound_under_advancing_clock (Samples.steady 101) 0 []
                   _ _ _ _)).
  - split; [constructor|intros []].
  - vm_compute. discriminate.
  - intros k e [].
  - vm_compute. repeat split; try reflexivity; intro H; discriminate H.
Defined.

(** X7: an entry stored at time [nowStore] is found under its key with the
    payload, media type and stamp it was stored with, and the lookup at
    time [now] is a hit exactly when [now - nowStore] is below
    [CACHE_TTL]. *)
Theorem store_then_lookup (nowEvict nowStore now : Z) (k : string)
    (payload : bytes) (mime : string) (m : Cache) :
  get k (store nowEvict nowStore k payload mime m)
  = Some (mkEntry payload mime nowStore)
  /\ lookup now k (store nowEvict nowStore k payload mime m)
     = if now - nowStore <? CACHE_TTL
       then Some (mkEntry payload mime nowStore)
       else None.
Proof.
  assert (G : get k (store nowEvict nowStore k payload mime m)
              = Some (mkEntry payload mime nowStore))
    by (unfold store; apply get_set_same).
  split; [exact G|]. unfold lookup. now rewrite G.
Qed.

(** X8: storing under a key that the cache already holds, below capacity,
    replaces the entry in place: the keys and their order are unchanged and
    so is the size. *)
Theorem store_replaces_in_place (nowEvict nowStore : Z) (k : string)
    (payload : bytes) (mime : string) (m : Cache) :
  In k (keys m) -> size m < MAX_CACHE_SIZE ->
  keys (store nowEvict nowStore k payload mime m) = keys m
  /\ size (store nowEvict nowStore k payload mime m) = size m.
Proof.
  intros H B. unfold store.
  destruct (Z.leb_spec MAX_CACHE_SIZE (size m)); [lia|].
  pose proof (keys_set_present m k (mkEntry payload mime nowStore) H) as E.
  split; [exact E|].
  unfold size. f_equal.
  rewrite <- (length_map fst (set k (mkEntry payload mime nowStore) m)).
  rewrite <- (length_map fst m). unfold keys in E. now rewrite E.
Qed.

Lemma store_replaces_in_place_witness :
  keys (store 5000 5000 "aa_png_auto_auto" [] "image/png" Samples.twoEntries)
  = keys Samples.twoEntries.
Proof.
  refine (proj1 (store_replaces_in_place 5000 5000 "aa_png_auto_auto" []
                   "image/png" Samples.twoEntries _ _)).
  - simpl. left. reflexivity.
  - reflexivity.
Defined.

End CacheExtra.

(* ------------------------------------------------------------------ *)
(** ** More on the image route                                         *)
(* ------------------------------------------------------------------ *)

Module RouteExtra.
Import ImageApp Pipeline.

Section WithEnv.

Variable env : Env.

(** *** The five ways a request ends *)

Lemma transcode_cases (clock : Clock) (cache : ImageCache.Cache) (req : Request)
    (resImgFormat origImgFormat : string) (origBinary : bytes) (cacheKey : string) :
  let r := transcode env clock cache req resImgFormat origImgFormat origBinary
             cacheKey in
  (isFail (fst r) /\ snd r = cache)
  \/ exists resBinary,
       fst r = ok (varyOnNegotiation req resImgFormat
                     (header "X-Cache" "MISS"
                        (header "Content-Type" (IMAGE_MIME_TYPE resImgFormat) [])))
                  resBinary
       /\ snd r = ImageCache.store (atEvict clock) (atStore clock) cacheKey
                    resBinary (IMAGE_MIME_TYPE resImgFormat) cache.
Proof.
  unfold transcode, orThrow.
  repeat (RouteProps.branch; [|left; split; [exact I|reflexivity]]).
  right. eexists. split; reflexivity.
Qed.

Lemma imageApp_cases (clock : Clock) (cache : ImageCache.Cache) (req : Request) :
  let f := negotiateFormat env req in
  let key := cacheKeyOf env req f in
  let r := imageApp env clock cache req in
  (isFail (fst r) /\ snd r = cache)
  \/ (isSupportedImageFormat f = true
      /\ ((exists b,
             f = "webp" /\ snd r = cache
             /\ fst r = ok (header "Vary" "Accept"
                              (header "X-Cache" "BYPASS"
                                 (header "Content-Type" (IMAGE_MIME_TYPE "webp") [])))
                           b)
          \/ (exists cached,
                ImageCache.lookup (atLookup clock) key cache = Some cached
                /\ snd r = cache
                /\ fst r = ok (varyOnNegotiation req f
                                 (header "X-Cache" "HIT"
                                    (header "Content-Type"
                                       (ImageCache.mimeType cached) [])))
                              (ImageCache.data cached))
          \/ (exists b,
                f <> "webp" /\ snd r = cache
                /\ fst r = ok (header "X-Cache" "BYPASS"
                                 (header "Content-Type" (IMAGE_MIME_TYPE f) []))
                              b)
          \/ (exists origFilePath origBinary rest resBinary,
                globby env (reqImgId req) = (origFilePath, origBinary) :: rest
                /\ isSupportedImageFormat (Js.slice1 (Path.extname origFilePath))
                   = true
                /\ (f =? "webp")%string
                   && (Js.slice1 (Path.extname origFilePath) =? "webp")%string
                   && noSize req = false
                /\ fst r = ok (varyOnNegotiation req f
                                 (header "X-Cache" "MISS"
                                    (header "Content-Type" (IMAGE_MIME_TYPE f) [])))
                              resBinary
                /\ snd r = ImageCache.store (atEvict clock) (atStore clock) key
                             resBinary (IMAGE_MIME_TYPE f) cache))).
Proof.
  unfold imageApp. cbv zeta.
  destruct (isSupportedImageFormat (negotiateFormat env req)) eqn:S; simpl;
    [|left; now split].
  destruct (globby env (reqImgId req)) as [|[origFilePath origBinary] rest] eqn:G;
    [left; now split|].
  destruct (isSupportedImageFormat (Js.slice1 (Path.extname origFilePath))) eqn:SO;
    simpl; [|left; now split].
  destruct ((negotiateFormat env req =? "webp")%string
            && (Js.slice1 (Path.extname origFilePath) =? "webp")%string
            && noSize req) eqn:W.
  { right. split; [reflexivity|]. left. exists origBinary.
    apply andb_prop in W. destruct W as [W _].
    apply andb_prop in W. destruct W as [W _].
    apply String.eqb_eq in W. now repeat split. }
  destruct (ImageCache.lookup (atLookup clock)
              (cacheKeyOf env req (negotiateFormat env req)) cache)
    as [cached|] eqn:L.
  { right. split; [reflexivity|]. right. left. exists cached. now repeat split. }
  destruct ((negotiateFormat env req =? Js.slice1 (Path.extname origFilePath))%string
            && noSize req) eqn:B.
  { right. split; [reflexivity|]. right. right. left. exists origBinary.
    split; [|now split].
    intro E. apply andb_prop in B. destruct B as [B N].
    apply String.eqb_eq in B. rewrite <- B, E, N in W. discriminate W. }
  match goal with
  | |- context [transcode ?e ?c ?m ?r ?g ?h ?b ?k] =>
      destruct (transcode_cases c m r g h b k) as [[F E]|[resBinary [O E]]]
  end; [left; now split|].
  right. split; [reflexivity|]. right. right. right.
  exists origFilePath, origBinary, rest, resBinary. now repeat split.
Qed.

Lemma get_vary_negotiated (req : Request) (f v x : string) :
  Headers.get "Vary"
    (varyOnNegotiation req f (header "X-Cache" x (header "Content-Type" v [])))
  = if (f =? "webp")%string && negb (Js.truthy (format (query req)))
    then Some "Accept" else None.
Proof.
  unfold varyOnNegotiation.
  destruct ((f =? "webp")%string && negb (Js.truthy (format (query req))));
    reflexivity.
Qed.

Lemma get_other_negotiated (name : string) (req : Request) (f : string)
    (h : Headers.t) :
  Headers.lower name <> "vary" ->
  Headers.get name (varyOnNegotiation req f h) = Headers.get name h.
Proof.
  intro N. unfold varyOnNegotiation, header.
  destruct ((f =? "webp")%string && negb (Js.truthy (format (query req))));
    [|reflexivity].
  apply HeadersProps.header_get_set_other. intro E. apply N. symmetry. exact E.
Qed.

Lemma xcache_value_irrelevant (name : string) (req : Request) (f x x' : string)
    (h : Headers.t) :
  Headers.lower name <> "x-cache" ->
  Headers.get name (varyOnNegotiation req f (header "X-Cache" x h))
  = Headers.get name (varyOnNegotiation req f (header "X-Cache" x' h)).
Proof.
  intro N.
  assert (X : forall y, Headers.get name (header "X-Cache" y h) = Headers.get name h).
  { intro y. apply HeadersProps.header_get_set_other.
    intro E. apply N. symmetry. exact E. }
  unfold varyOnNegotiation.
  destruct ((f =? "webp")%string && negb (Js.truthy (format (query req))));
    [|now rewrite !X].
  unfold header at 1 3. unfold Headers.get, Headers.set.
  destruct (String.eqb_spec (Headers.lower "Vary") (Headers.lower name)) as [E|D].
  - rewrite <- E, !HeadersProps.find_update_same. reflexivity.
  - rewrite !(HeadersProps.find_update_other _ _ _ _ D).
    change (Headers.get name (header "X-Cache" x h)
            = Headers.get name (header "X-Cache" x' h)).
    now rewrite !X.
Qed.

Lemma lookup_get (now : Z) (k : string) (cache : ImageCache.Cache)
    (e : ImageCache.CacheEntry) :
  ImageCache.lookup now k cache = Some e -> ImageCache.get k cache = Some e.
Proof.
  unfold ImageCache.lookup. destruct (ImageCache.get k cache) as [c|];
    [|discriminate].
  destruct (now - ImageCache.timestamp c <? ImageCache.CACHE_TTL);
    [intro E; exact E|discriminate].
Qed.

Lemma mime_is_image (f : string) :
  isSupportedImageFormat f = true ->
  Js.startsWith (IMAGE_MIME_TYPE f) "image/" = true.
Proof.
  unfold isSupportedImageFormat, SUPPORTED_IMAGE_EXTENSIONS. simpl.
  rewrite !orb_true_iff, !String.eqb_eq.
  intros [->|[->|[->|[->|[->|[->|F]]]]]]; try reflexivity. discriminate F.
Qed.

(** *** Invariants of the caches the route reaches *)

Lemma key_nonempty (req : Request) (f : string) : cacheKeyOf env req f <> "".
Proof.
  unfold cacheKeyOf. destruct (reqImgId req); simpl; discriminate.
Qed.

Lemma imageApp_wf (clock : Clock) (cache : ImageCache.Cache) (req : Request) :
  ImageCache.wf cache -> ImageCache.wf (snd (imageApp env clock cache req)).
Proof.
  intro W.
  destruct (RouteProps.imageApp_writes env clock cache req)
    as [E|[orig [resBinary [_ [_ [_ E]]]]]]; rewrite E; [exact W|].
  apply CacheProps.wf_store; [exact W|apply key_nonempty].
Qed.

Lemma reachable_wf (cache : ImageCache.Cache) :
  reachable env cache -> ImageCache.wf cache.
Proof.
  induction 1 as [|cache clock req R IH V].
  - split; [constructor|intros []].
  - now apply imageApp_wf.
Qed.

Lemma get_evict_some (now : Z) (m : ImageCache.Cache) (k : string)
    (e : ImageCache.CacheEntry) :
  NoDup (ImageCache.keys m) ->
  ImageCache.get k (ImageCache.evictOldestEntry now m) = Some e ->
  ImageCache.get k m = Some e.
Proof.
  intro ND. unfold ImageCache.evictOldestEntry.
  destruct (ImageCache.scanOldest m None now) as [v|]; simpl; [|tauto].
  destruct (v =? "")%string; simpl; [tauto|].
  destruct (String.eqb_spec k v) as [->|D].
  - rewrite (CacheProps.get_delete_same m v ND). discriminate.
  - now rewrite (CacheProps.get_delete_other m v k D).
Qed.

Section Typed.

Hypothesis numerals : plainNumerals env.

Lemma typed_step (clock : Clock) (cache : ImageCache.Cache) (req : Request) :
  validRequest req -> ImageCache.wf cache -> typed env cache ->
  typed env (snd (imageApp env clock cache req)).
Proof.
  intros V W T.
  destruct (RouteProps.imageApp_writes env clock cache req)
    as [E|[orig [resBinary [_ [S [_ E]]]]]]; rewrite E; [exact T|].
  intros req0 f0 e V0 S0 G. unfold ImageCache.store in G.
  destruct (String.eqb_spec (cacheKeyOf env req0 f0)
              (cacheKeyOf env req (negotiateFormat env req))) as [K|D].
  - rewrite K, CacheExtra.get_set_same in G. injection G as <-. simpl.
    destruct (RouteProps.cacheKeyOf_inj env numerals req0 req f0 _ V0 V S0 S K)
      as [_ [-> _]]. reflexivity.
  - rewrite (CacheProps.get_set_other _ _ _ _ D) in G.
    apply (T req0 f0 e V0 S0).
    destruct (ImageCache.MAX_CACHE_SIZE <=? ImageCache.size cache); [|exact G].
    exact (get_evict_some _ _ _ _ (proj1 W) G).
Qed.

Lemma reachable_typed (cache : ImageCache.Cache) :
  reachable env cache -> typed env cache.
Proof.
  induction 1 as [|cache clock req R IH V].
  - intros req f e _ _ G. discriminate G.
  - apply typed_step; [exact V|now apply reachable_wf|exact IH].
Qed.

(** X9: on every cache the route can reach, a validated request that is
    answered gets status 200, an [X-Cache] of HIT, MISS or BYPASS, and as
    [Content-Type] the image media type of the negotiated format, also when
    the body comes from the cache. *)
Theorem answers_carry_the_negotiated_media_type (clock : Clock)
    (cache : ImageCache.Cache) (req : Request) (r : Response) :
  reachable env cache -> validRequest req ->
  fst (imageApp env clock cache req) = Respond r ->
  status r = 200
  /\ knownXCache (Respond r)
  /\ Headers.get "Content-Type" (headers r)
     = Some (IMAGE_MIME_TYPE (negotiateFormat env req))
  /\ Js.startsWith (IMAGE_MIME_TYPE (negotiateFormat env req)) "image/" = true.
Proof.
  intros R V O.
  pose proof (imageApp_cases clock cache req) as C. cbv zeta in C.
  rewrite O in C.
  destruct C as [[F _]|[S [[b [Ew [_ Eo]]]|[[cached [L [_ Eo]]]|[[b [Nw [_ Eo]]]
                 |[p [ob [rest [rb [_ [_ [_ [Eo _]]]]]]]]]]]]];
    [destruct F| | | |]; injection Eo as ->;
    unfold knownXCache, hasHeader; cbn [status headers];
    (split; [reflexivity|]);
    (split; [|split; [|exact (mime_is_image _ S)]]).
  - right. right. reflexivity.
  - rewrite Ew. reflexivity.
  - left. rewrite get_other_negotiated by (simpl; discriminate). reflexivity.
  - rewrite get_other_negotiated by (simpl; discriminate).
    transitivity (Some (ImageCache.mimeType cached)); [reflexivity|].
    f_equal. apply (reachable_typed cache R req _ cached V S).
    exact (lookup_get _ _ _ _ L).
  - right. right. reflexivity.
  - reflexivity.
  - right. left. rewrite get_other_negotiated by (simpl; discriminate).
    reflexivity.
  - rewrite get_other_negotiated by (simpl; discriminate). reflexivity.
Qed.

End Typed.

(** X10: [Vary: Accept] is set only when the negotiated format is webp;
    on the HIT and MISS paths it is set exactly when the format is webp and
    the request gave no format parameter. *)
Theorem vary_is_set_only_for_webp (clock : Clock) (cache : ImageCache.Cache)
    (req : Request) :
  let o := fst (imageApp env clock cache req) in
  (hasHeader "Vary" "Accept" o -> negotiateFormat env req = "webp")
  /\ (hasHeader "X-Cache" "HIT" o \/ hasHeader "X-Cache" "MISS" o ->
      (hasHeader "Vary" "Accept" o
       <-> negotiateFormat env req = "webp"
           /\ Js.truthy (format (query req)) = false)).
Proof.
  cbv zeta.
  assert (K : forall v x b,
             let o := ok (varyOnNegotiation req (negotiateFormat env req)
                            (header "X-Cache" x (header "Content-Type" v []))) b in
             (hasHeader "Vary" "Accept" o -> negotiateFormat env req = "webp")
             /\ (hasHeader "Vary" "Accept" o
                 <-> negotiateFormat env req = "webp"
                     /\ Js.truthy (format (query req)) = false)).
  { intros v x b. cbv zeta. unfold hasHeader, ok. simpl.
    rewrite get_vary_negotiated.
    destruct (String.eqb_spec (negotiateFormat env req) "webp") as [E|D];
      destruct (Js.truthy (format (query req))); simpl;
      repeat split; try tauto; try discriminate; intuition discriminate. }
  pose proof (imageApp_cases clock cache req) as C. cbv zeta in C.
  destruct C as [[F _]|[S [[b [Ew [_ Eo]]]|[[cached [L [_ Eo]]]|[[b [Nw [_ Eo]]]
                 |[p [ob [rest [rb [_ [_ [_ [Eo _]]]]]]]]]]]]].
  - destruct (fst (imageApp env clock cache req)); [destruct F|].
    simpl. tauto.
  - rewrite Eo. simpl. split; [intros _; exact Ew|].
    intros [H|H]; discriminate H.
  - rewrite Eo. destruct (K (ImageCache.mimeType cached) "HIT"
                            (ImageCache.data cached)) as [K1 K2].
    split; [exact K1|intros _; exact K2].
  - rewrite Eo. simpl. split; [intro H; discriminate H|].
    intros [H|H]; discriminate H.
  - rewrite Eo. destruct (K (IMAGE_MIME_TYPE (negotiateFormat env req)) "MISS" rb)
      as [K1 K2].
    split; [exact K1|intros _; exact K2].
Qed.

(** X11: a request answered with [X-Cache: MISS] leaves its result in the
    cache: the same request, looked up less than [CACHE_TTL] after the entry
    was stamped, is answered with [X-Cache: HIT], the same body and the same
    other headers, and leaves the cache as it is. *)
Theorem miss_then_hit (clock clock' : Clock) (cache : ImageCache.Cache)
    (req : Request) :
  hasHeader "X-Cache" "MISS" (fst (imageApp env clock cache req)) ->
  atLookup clock' - atStore clock < ImageCache.CACHE_TTL ->
  let r := imageApp env clock cache req in
  let r' := imageApp env clock' (snd r) req in
  hasHeader "X-Cache" "HIT" (fst r')
  /\ (exists b, hasBody b (fst r) /\ hasBody b (fst r'))
  /\ (forall name v, Headers.lower name <> "x-cache" ->
        (hasHeader name v (fst r) <-> hasHeader name v (fst r')))
  /\ snd r' = snd r.
Proof.
  intros M A. cbv zeta.
  pose proof (imageApp_cases clock cache req) as C. cbv zeta in C.
  destruct C as [[F _]|[S [[b [Ew [_ Eo]]]|[[cached [L [_ Eo]]]|[[b [Nw [_ Eo]]]
                 |[p [ob [rest [rb [G [SO [W [Eo Ec]]]]]]]]]]]]].
  - exfalso. exact (RouteProps.fail_is_not_miss _ F M).
  - rewrite Eo in M. discriminate M.
  - rewrite Eo in M. unfold hasHeader, ok in M. simpl in M.
    rewrite get_other_negotiated in M by (simpl; discriminate).
    discriminate M.
  - rewrite Eo in M. discriminate M.
  - assert (L : ImageCache.lookup (atLookup clock')
                  (cacheKeyOf env req (negotiateFormat env req))
                  (snd (imageApp env clock cache req))
                = Some (ImageCache.mkEntry rb
                          (IMAGE_MIME_TYPE (negotiateFormat env req))
                          (atStore clock))).
    { rewrite Ec. unfold ImageCache.lookup, ImageCache.store.
      rewrite CacheExtra.get_set_same. simpl.
      destruct (Z.ltb_spec (atLookup clock' - atStore clock) ImageCache.CACHE_TTL);
        [reflexivity|lia]. }
    assert (E' : imageApp env clock' (snd (imageApp env clock cache req)) req
                 = (ok (varyOnNegotiation req (negotiateFormat env req)
                          (header "X-Cache" "HIT"
                             (header "Content-Type"
                                (IMAGE_MIME_TYPE (negotiateFormat env req)) [])))
                       rb,
                    snd (imageApp env clock cache req))).
    { unfold imageApp at 1. cbv zeta. rewrite S, G, SO, W, L. reflexivity. }
    rewrite E', Eo. simpl.
    split; [|split; [|split; [|reflexivity]]].
    + rewrite get_other_negotiated by (simpl; discriminate). reflexivity.
    + exists rb. now split.
    + intros name v N.
      rewrite (xcache_value_irrelevant name req _ "MISS" "HIT" _ N). tauto.
Qed.

End WithEnv.

(** A second request for the resized image, one second after the first. *)
Lemma miss_then_hit_witness :
  hasHeader "X-Cache" "HIT"
    (fst (imageApp Samples.env (Samples.at_ 2000)
            (snd (imageApp Samples.env (Samples.at_ 1000) [] Samples.resized))
            Samples.resized)).
Proof.
  refine (proj1 (miss_then_hit Samples.env (Samples.at_ 1000) (Samples.at_ 2000)
                   [] Samples.resized _ _)).
  - reflexivity.
  - reflexivity.
Defined.

(** The warm cache answers the resized request as a png. *)
Lemma answers_carry_the_negotiated_media_type_witness :
  Headers.get "Content-Type"
    (headers (mkResponse 200
                [("content-type", "image/png"); ("x-cache", "HIT")]
                Samples.encoded))
  = Some (IMAGE_MIME_TYPE (negotiateFormat Samples.env Samples.resized)).
Proof.
  refine (proj1 (proj2 (proj2
    (answers_carry_the_negotiated_media_type Samples.env
       RouteProps.samples_plainNumerals (Samples.at_ 1005) Samples.warm
       Samples.resized _ RouteProps.samples_warm_reachable _ _)))).
  - reflexivity.
  - reflexivity.
Defined.

Section Further.

Variable env : Env.

(** X12: two validated requests for supported formats get the same cache
    key only when they agree on the identifier, on the format and on the
    printed width and height; a request without a size never shares a key
    with one that has a size. *)
Theorem cache_keys_do_not_collide (req req' : Request) (f f' : string) :
  plainNumerals env ->
  validRequest req -> validRequest req' ->
  isSupportedImageFormat f = true -> isSupportedImageFormat f' = true ->
  cacheKeyOf env req f = cacheKeyOf env req' f' ->
  reqImgId req = reqImgId req'
  /\ f = f'
  /\ dimension env (width (query req)) = dimension env (width (query req'))
  /\ dimension env (height (query req)) = dimension env (height (query req'))
  /\ noSize req = noSize req'.
Proof.
  intros P V V' S S' E. unfold cacheKeyOf in E.
  destruct (RouteProps.split_at_underscore _ _ _ _ V V' E) as [Eid E1].
  destruct (RouteProps.split_at_underscore _ _ _ _ (RouteProps.supported_plain f S)
              (RouteProps.supported_plain f' S') E1) as [Ef E2].
  destruct (RouteProps.split_at_underscore _ _ _ _
              (RouteProps.dimension_plain env P _)
              (RouteProps.dimension_plain env P _) E2) as [Ew Eh].
  repeat split; try assumption.
  unfold noSize.
  now rewrite (RouteProps.dimension_null env P _ _ Ew),
    (RouteProps.dimension_null env P _ _ Eh).
Qed.

(** X13: on every cache the route can reach over an unchanged store, a
    validated request whose target format is the origin's format and that
    asks for no size is answered with the bytes of the origin file and
    [X-Cache: BYPASS]; the cache yields no entry and gains none. *)
Theorem bypass_never_meets_the_cache (clock : Clock) (cache : ImageCache.Cache)
    (req : Request) (origFilePath : string) (origBinary : bytes) :
  plainNumerals env ->
  reachable env cache -> validRequest req ->
  originOf env req = Some (origFilePath, origBinary) ->
  Js.slice1 (Path.extname origFilePath) = negotiateFormat env req ->
  isSupportedImageFormat (negotiateFormat env req) = true ->
  noSize req = true ->
  hasHeader "X-Cache" "BYPASS" (fst (imageApp env clock cache req))
  /\ hasBody origBinary (fst (imageApp env clock cache req))
  /\ snd (imageApp env clock cache req) = cache.
Proof.
  intros P R V O F S N.
  destruct (RouteProps.bypass_on_reachable env P clock cache req origFilePath
              origBinary R V O F S N) as [X [B [C _]]].
  now repeat split.
Qed.

(** X14: for a format parameter that is absent or non-empty the target
    format is the parameter when given; else webp when the [Accept] header
    contains [image/webp], the format of the request path is not webp and
    the store holds the sibling [<id>.webp]; else the format of the request
    path. *)
Theorem negotiation_order (req : Request) :
  format (query req) <> Some "" ->
  negotiateFormat env req
  = match format (query req) with
    | Some f => f
    | None =>
        if acceptsWebP req
           && negb (Js.slice1 (reqImgExt req) =? "webp")%string
           && access env (reqImgId req ++ ".webp")
        then "webp"
        else Js.slice1 (reqImgExt req)
    end.
Proof. intro N. exact (RouteProps.negotiateFormat_resolution env req N). Qed.

(** X15: a non-empty format parameter outside the supported set ends the
    request with status 501 and a message that names the format, before the
    store is consulted; the cache is left as it is. *)
Theorem unsupported_format_parameter_is_501 (clock : Clock)
    (cache : ImageCache.Cache) (req : Request) (f : string) :
  format (query req) = Some f -> f <> "" ->
  isSupportedImageFormat f = false ->
  imageApp env clock cache req
  = (Fail 501 ("Image format: " ++ f ++ " is not supported."), cache).
Proof.
  intros E N U.
  assert (G : negotiateFormat env req = f).
  { unfold negotiateFormat, requestedFormat. rewrite E. simpl.
    destruct (String.eqb_spec f ""); [contradiction|reflexivity]. }
  unfold imageApp. cbv zeta. rewrite G, U. reflexivity.
Qed.

(** *** The cache of the route under an advancing clock *)

Lemma stamped_weaken (t t' : Z) (m : ImageCache.Cache) :
  t <= t' -> ImageCache.stampedUpTo t m -> ImageCache.stampedUpTo t' m.
Proof. intros L S k e HI. specialize (S k e HI). lia. Qed.

Lemma imageApp_bounded (clock : Clock) (cache : ImageCache.Cache) (req : Request)
    (t : Z) :
  ImageCache.wf cache -> ImageCache.size cache <= ImageCache.MAX_CACHE_SIZE ->
  ImageCache.stampedUpTo t cache ->
  t < atEvict clock -> atEvict clock <= atStore clock ->
  ImageCache.size (snd (imageApp env clock cache req)) <= ImageCache.MAX_CACHE_SIZE
  /\ ImageCache.stampedUpTo (atStore clock) (snd (imageApp env clock cache req)).
Proof.
  intros W B S Te Ts.
  destruct (RouteProps.imageApp_writes env clock cache req)
    as [E|[orig [resBinary [_ [_ [_ E]]]]]]; rewrite E.
  - split; [exact B|]. apply (stamped_weaken t); [lia|exact S].
  - split.
    + apply CacheProps.store_bounded; [exact W|exact B|].
      intro Full. apply (CacheProps.stamped_hasOlder t); [exact S|exact Te|].
      unfold ImageCache.MAX_CACHE_SIZE in Full. lia.
    + apply (CacheProps.stamped_store t); [exact S|lia].
Qed.

(** X16: while the clock advances from one request to the next, the cache
    of the route keeps unique non-empty keys and never holds more than
    [MAX_CACHE_SIZE] entries, whatever the requests are. *)
Theorem route_cache_stays_bounded (l : list (Clock * Request)) :
  forall (t : Z) (cache : ImageCache.Cache),
    ImageCache.wf cache ->
    ImageCache.size cache <= ImageCache.MAX_CACHE_SIZE ->
    ImageCache.stampedUpTo t cache ->
    advancing t l ->
    ImageCache.wf (snd (serve env cache l))
    /\ ImageCache.size (snd (serve env cache l)) <= ImageCache.MAX_CACHE_SIZE.
Proof.
  induction l as [|[clock req] l IH]; intros t cache W B S A; [now split|].
  simpl in A. destruct A as [Te [Ts A]]. simpl.
  pose proof (imageApp_wf env clock cache req W) as W1.
  destruct (imageApp_bounded clock cache req t W B S Te Ts) as [B1 S1].
  destruct (imageApp env clock cache req) as [o cache1]. simpl in *.
  specialize (IH (atStore clock) cache1 W1 B1 S1 A).
  destruct (serve env cache1 l) as [os cache2]. exact IH.
Qed.

End Further.

(** *** What the validator leaves of a file name *)

Lemma splitLastDot_append (s p e : string) :
  Path.splitLastDot s = Some (p, e) -> p ++ e = s.
Proof.
  revert p e. induction s as [|c s IH]; simpl; intros p e; [discriminate|].
  destruct (Path.splitLastDot s) as [[p1 e1]|].
  - intro E. injection E as <- <-. simpl. now rewrite (IH p1 e1 eq_refl).
  - destruct (Ascii.eqb c "."); [|discriminate].
    intro E. injection E as <- <-. reflexivity.
Qed.

Lemma append_empty (s : string) : (s ++ "")%string = s.
Proof. induction s as [|c s IH]; simpl; [reflexivity|now rewrite IH]. Qed.

Lemma matchRest_shape (s : string) :
  matchRest s = true ->
  (Path.splitLastDot s = None /\ allChars isIdChar s = true)
  \/ exists p w, Path.splitLastDot s = Some (p, String "." w)
                 /\ allChars isIdChar p = true /\ allChars isWordChar w = true.
Proof.
  induction s as [|c s IH]; simpl; [now left|].
  destruct (isIdChar c) eqn:Hc.
  - intro M. destruct (IH M) as [[N A]|[p [w [S [A W]]]]].
    + left. rewrite N, A.
      destruct (Ascii.eqb_spec c ".") as [->|_]; [discriminate Hc|now split].
    + right. exists (String c p), w. rewrite S. simpl. now rewrite Hc, A.
  - intro M. apply andb_prop in M. destruct M as [D W].
    right. exists EmptyString, s.
    rewrite (RouteProps.word_has_no_dot s W), D.
    apply Ascii.eqb_eq in D. subst c. now repeat split.
Qed.

(** X17: for a file name that passed the validator, the identifier used
    for the glob and for the cache key is a non-empty run of lower-case
    hexadecimal digits and hyphens, the extension is empty or a dot followed
    by word characters, and the two together are the file name. *)
Theorem validated_file_name_parts (req : Request) :
  validImageFile (imageFile req) = true ->
  (reqImgId req ++ reqImgExt req)%string = imageFile req
  /\ reqImgId req <> ""
  /\ allChars isIdChar (reqImgId req) = true
  /\ (reqImgExt req = ""
      \/ exists w, reqImgExt req = String "." w /\ allChars isWordChar w = true).
Proof.
  unfold reqImgId, reqImgExt, Path.name, Path.extname, validImageFile.
  destruct (imageFile req) as [|c s]; [discriminate|].
  intro V. apply andb_prop in V. destruct V as [Hc M].
  assert (Hdot : Ascii.eqb c "." = false)
    by (destruct (Ascii.eqb_spec c ".") as [->|_]; [discriminate Hc|reflexivity]).
  cbn [Path.splitLastDot].
  destruct (matchRest_shape s M) as [[N A]|[p [w [S [A W]]]]].
  - rewrite N, Hdot. simpl. rewrite Hc, A.
    repeat split; [now rewrite append_empty|discriminate|now left].
  - rewrite S. unfold Path.noExt. simpl. rewrite Hdot. simpl.
    rewrite Hc, A. pose proof (splitLastDot_append s p _ S) as E.
    repeat split; [now rewrite E|discriminate|].
    right. exists w. now split.
Qed.

(** *** Concrete runs *)

(** [abc.png?width=100&height=50] and [abc.jpg?format=png&width=100&height=50]
    share the key [abc_png_100_50], and agree on identifier and sizes. *)
Lemma cache_keys_do_not_collide_witness :
  cacheKeyOf Samples.env Samples.resized "png" = "abc_png_100_50"
  /\ reqImgId Samples.resized = reqImgId Samples.resizedViaJpg.
Proof.
  split; [reflexivity|].
  refine (proj1 (cache_keys_do_not_collide Samples.env Samples.resized
                   Samples.resizedViaJpg "png" "png"
                   RouteProps.samples_plainNumerals _ _ _ _ _));
    reflexivity.
Defined.

(** [GET /images/abc.png] on the warm cache streams the png file. *)
Lemma bypass_never_meets_the_cache_witness :
  hasBody Samples.pngBytes
    (fst (imageApp Samples.env (Samples.at_ 2000) Samples.warm Samples.plainPng)).
Proof.
  refine (proj1 (proj2 (bypass_never_meets_the_cache Samples.env
                          (Samples.at_ 2000) Samples.warm Samples.plainPng
                          "abc.png" Samples.pngBytes
                          RouteProps.samples_plainNumerals
                          RouteProps.samples_warm_reachable _ _ _ _ _)));
    reflexivity.
Defined.

(** [GET /images/abc.png] with [Accept: image/webp] and the sibling
    [abc.webp] in the store resolves to webp. *)
Lemma negotiation_order_witness :
  negotiateFormat Samples.env Samples.pngAcceptingWebp = "webp".
Proof.
  refine (negotiation_order Samples.env Samples.pngAcceptingWebp _).
  simpl. discriminate.
Defined.

(** [GET /images/abc.png?format=tiff] *)
Lemma unsupported_format_parameter_is_501_witness :
  imageApp Samples.env (Samples.at_ 5) Samples.warm Samples.explicitTiff
  = (Fail 501 "Image format: tiff is not supported.", Samples.warm).
Proof.
  refine (unsupported_format_parameter_is_501 Samples.env (Samples.at_ 5)
            Samples.warm Samples.explicitTiff "tiff" _ _ _).
  - reflexivity.
  - discriminate.
  - reflexivity.
Defined.

(** 101 requests for distinct images, one per millisecond, leave at most
    100 entries. *)
Lemma route_cache_stays_bounded_witness :
  ImageCache.size (snd (serve (Samples.burstEnv 101) []
                          (Samples.steadyRequests 101)))
  <= ImageCache.MAX_CACHE_SIZE.
Proof.
  refine (proj2 (route_cache_stays_bounded (Samples.burstEnv 101)
                   (Samples.steadyRequests 101) 0 [] _ _ _ _)).
  - split; [constructor|intros []].
  - vm_compute. discriminate.
  - intros k e [].
  - vm_compute. repeat split; try reflexivity; intro H; discriminate H.
Defined.

(** [abc.png] splits into [abc] and [.png]. *)
Lemma validated_file_name_parts_witness :
  (reqImgId Samples.resized ++ reqImgExt Samples.resized)%string = "abc.png".
Proof.
  exact (proj1 (validated_file_name_parts Samples.resized eq_refl)).
Defined.

End RouteExtra.

(* ------------------------------------------------------------------ *)
(** ** More on the two stages, alone and around the route              *)
(* ------------------------------------------------------------------ *)

Module StagesExtra.
Import Http Compress CacheControl.

Lemma orElse_some_empty (v : string) : Js.orElse (Some v) "" = v.
Proof. simpl. destruct (String.eqb_spec v ""); [now subst|reflexivity]. Qed.

Lemma update_twice (k v : string) (h : Headers.t) :
  Headers.update k (fun _ => v) (Headers.update k (fun _ => v) h)
  = Headers.update k (fun _ => v) h.
Proof.
  induction h as [|[k1 v1] h IH]; simpl.
  - now rewrite String.eqb_refl.
  - destruct (String.eqb_spec k k1) as [->|N]; simpl.
    + now rewrite String.eqb_refl.
    + destruct (String.eqb_spec k k1); [contradiction|now rewrite IH].
Qed.

Lemma cacheControl_contentType (url : string) (res : Response) :
  Headers.get "Content-Type" (headers (cacheControlMiddleware url res))
  = Headers.get "Content-Type" (headers res).
Proof.
  unfold cacheControlMiddleware, withHeaders. simpl.
  apply HeadersProps.header_get_set_other. simpl. discriminate.
Qed.

Section WithLibraries.

Variable encoding : option string -> list string -> string.
Variable zstdCompress : bytes -> Z -> bytes.

Lemma compress_cases (acceptEncoding : option string) (res : Response) :
  compressMiddleware encoding zstdCompress acceptEncoding res
  = if Num.strictlyBetween 0 1024 (contentLengthOf res)
       || Js.startsWith (contentTypeOf res) "image/"
       || negb (encoding acceptEncoding ["zstd"] =? "zstd")%string
    then markNoTransform res
    else zstdResponse zstdCompress res.
Proof.
  unfold compressMiddleware. cbv zeta.
  destruct (Num.strictlyBetween 0 1024 (contentLengthOf res)); simpl;
    [reflexivity|].
  destruct (Js.startsWith (contentTypeOf res) "image/"); simpl; [reflexivity|].
  destruct (encoding acceptEncoding ["zstd"] =? "zstd")%string; reflexivity.
Qed.

Lemma zstdResponse_contentType (res : Response) :
  Headers.get "Content-Type" (headers (zstdResponse zstdCompress res))
  = Headers.get "Content-Type" (headers res).
Proof.
  unfold zstdResponse, withHeaders. simpl.
  rewrite HeadersProps.header_get_set_other by (simpl; discriminate).
  rewrite HeadersProps.header_get_append_other by (simpl; discriminate).
  apply HeadersProps.header_get_delete_other. simpl. discriminate.
Qed.

Lemma compress_contentType (acceptEncoding : option string) (res : Response) :
  Headers.get "Content-Type"
    (headers (compressMiddleware encoding zstdCompress acceptEncoding res))
  = Headers.get "Content-Type" (headers res).
Proof.
  rewrite compress_cases.
  destruct (Num.strictlyBetween 0 1024 (contentLengthOf res)
            || Js.startsWith (contentTypeOf res) "image/"
            || negb (encoding acceptEncoding ["zstd"] =? "zstd")%string).
  - apply (CompressProps.markNoTransform_spec res). simpl. discriminate.
  - apply zstdResponse_contentType.
Qed.

(** X18: on every path the compression stage keeps the status and the
    content type and appends [no-transform] to the [Cache-Control] it finds
    (or sets it when there is none); [Content-Encoding] is either left as it
    was or set to [zstd]. *)
Theorem compression_always_marks_no_transform (acceptEncoding : option string)
    (res : Response) :
  let out := compressMiddleware encoding zstdCompress acceptEncoding res in
  status out = status res
  /\ Headers.get "Content-Type" (headers out)
     = Headers.get "Content-Type" (headers res)
  /\ Headers.get "Cache-Control" (headers out)
     = Some (appended (Headers.get "Cache-Control" (headers res)))
  /\ (Headers.get "Content-Encoding" (headers out)
        = Headers.get "Content-Encoding" (headers res)
      \/ Headers.get "Content-Encoding" (headers out) = Some "zstd").
Proof.
  cbv zeta. split; [|split; [apply compress_contentType|]];
    rewrite compress_cases;
    destruct (Num.strictlyBetween 0 1024 (contentLengthOf res)
              || Js.startsWith (contentTypeOf res) "image/"
              || negb (encoding acceptEncoding ["zstd"] =? "zstd")%string).
  - reflexivity.
  - reflexivity.
  - destruct (CompressProps.markNoTransform_spec res) as [_ [_ [C O]]].
    split; [exact C|]. left. apply O. simpl. discriminate.
  - destruct (CompressProps.zstdResponse_spec zstdCompress res)
      as [_ [_ [_ [E C]]]].
    split; [exact C|]. right. exact E.
Qed.

(** X20: the two stages in either order.  When the cache-control stage
    runs last, [Cache-Control] is exactly the directive for the URL and the
    content type, and the [no-transform] of the compression stage is gone;
    when the compression stage runs last, [Cache-Control] is that directive
    followed by [no-transform].  In both orders the body is the one the
    compression stage alone produces. *)
Theorem stages_in_either_order (acceptEncoding : option string) (url : string)
    (res : Response) :
  let compressed := compressMiddleware encoding zstdCompress acceptEncoding res in
  let d := directive url (contentTypeOf res) in
  let last := cacheControlMiddleware url compressed in
  let first := compressMiddleware encoding zstdCompress acceptEncoding
                 (cacheControlMiddleware url res) in
  Headers.get "Cache-Control" (headers last) = Some d
  /\ body last = body compressed
  /\ Headers.get "Cache-Control" (headers first)
     = Some (d ++ ", no-transform")%string
  /\ body first = body compressed.
Proof.
  cbv zeta.
  assert (T : contentTypeOf (cacheControlMiddleware url res) = contentTypeOf res)
    by (unfold contentTypeOf; now rewrite cacheControl_contentType).
  assert (L : contentLengthOf (cacheControlMiddleware url res)
              = contentLengthOf res).
  { unfold contentLengthOf, cacheControlMiddleware, withHeaders. simpl.
    rewrite HeadersProps.header_get_set_other by (simpl; discriminate).
    reflexivity. }
  split; [|split; [reflexivity|split]].
  - unfold cacheControlMiddleware at 1. unfold withHeaders. simpl.
    rewrite HeadersProps.header_get_set. f_equal. f_equal.
    fold (contentTypeOf
            (compressMiddleware encoding zstdCompress acceptEncoding res)).
    unfold contentTypeOf. now rewrite compress_contentType.
  - rewrite compress_cases, T, L.
    assert (G : Headers.get "Cache-Control"
                  (headers (cacheControlMiddleware url res))
                = Some (directive url (contentTypeOf res))).
    { unfold cacheControlMiddleware, withHeaders. simpl.
      apply HeadersProps.header_get_set. }
    destruct (Num.strictlyBetween 0 1024 (contentLengthOf res)
              || Js.startsWith (contentTypeOf res) "image/"
              || negb (encoding acceptEncoding ["zstd"] =? "zstd")%string).
    + destruct (CompressProps.markNoTransform_spec
                  (cacheControlMiddleware url res)) as [_ [_ [C _]]].
      rewrite C, G. reflexivity.
    + destruct (CompressProps.zstdResponse_spec zstdCompress
                  (cacheControlMiddleware url res)) as [_ [_ [_ [_ C]]]].
      rewrite C, G. reflexivity.
  - rewrite !compress_cases, T, L.
    destruct (Num.strictlyBetween 0 1024 (contentLengthOf res)
              || Js.startsWith (contentTypeOf res) "image/"
              || negb (encoding acceptEncoding ["zstd"] =? "zstd")%string);
      [reflexivity|].
    unfold zstdResponse, withHeaders. simpl. now rewrite T.
Qed.

End WithLibraries.

(** X19: the cache-control stage is idempotent, and its result does not
    depend on the [Cache-Control] value it finds. *)
Theorem cache_control_is_idempotent (url value : string) (res : Response) :
  cacheControlMiddleware url (cacheControlMiddleware url res)
  = cacheControlMiddleware url res
  /\ Headers.get "Cache-Control"
       (headers (cacheControlMiddleware url
                   (withHeaders (Headers.set "Cache-Control" value) res)))
     = Headers.get "Cache-Control" (headers (cacheControlMiddleware url res)).
Proof.
  split.
  - unfold cacheControlMiddleware at 1. rewrite cacheControl_contentType.
    unfold cacheControlMiddleware, withHeaders. simpl.
    unfold Headers.set. now rewrite update_twice.
  - unfold cacheControlMiddleware, withHeaders. simpl.
    rewrite !HeadersProps.header_get_set. do 3 f_equal.
    apply HeadersProps.header_get_set_other. simpl. discriminate.
Qed.

End StagesExtra.

(* ------------------------------------------------------------------ *)
(** ** More on the arithmetic: resize and crop                         *)
(* ------------------------------------------------------------------ *)

Module ArithmeticExtra.
Import Resize UseImage.

Local Open Scope Q_scope.

Lemma exact_monotone : monotone exact.
Proof. intros x y L. exact L. Qed.

Lemma exact_idempotent : idempotent exact.
Proof. intro x. simpl. reflexivity. Qed.

Lemma positive_integer (n : Z) : (0 < n)%Z -> 0 < inject_Z n.
Proof. intro P. unfold Qlt. simpl. lia. Qed.

Lemma ceiling_positive (x : Q) : 0 < x -> (0 < Qceiling x)%Z.
Proof.
  intro P. pose proof (Qle_ceiling x) as C.
  assert (L : inject_Z 0 < inject_Z (Qceiling x))
    by (eapply Qlt_le_trans; [exact P|exact C]).
  unfold Qlt in L. simpl in L. lia.
Qed.

Section Arithmetic.

Variable F : Float64.
Hypothesis mono : monotone F.
Hypothesis idem : idempotent F.

Lemma rnd_nonneg (x : Q) : 0 <= x -> 0 <= rnd F x.
Proof.
  intro P. rewrite <- (ResizeProps.rnd_zero F 0 (Qeq_refl 0)). now apply mono.
Qed.

Lemma fdiv_nonneg (x : Q) (d : Z) : 0 <= x -> (0 < d)%Z -> 0 <= fdiv F x (inject_Z d).
Proof.
  intros P D. apply rnd_nonneg. apply Qle_shift_div_l.
  - now apply positive_integer.
  - now rewrite Qmult_0_l.
Qed.

Lemma nullish_nonneg (o : option Q) : absentOrNonNegative o -> 0 <= Js.nullish o 0.
Proof. destruct o; simpl; [tauto|intros _; apply Qle_refl]. Qed.

Lemma scale_positive_fixed (W H : Z) (width height : option Q) :
  (0 < W)%Z -> (0 < H)%Z ->
  absentOrNonNegative width -> absentOrNonNegative height ->
  0 < scale F W H width height
  /\ rnd F (scale F W H width height) == scale F W H width height.
Proof.
  intros PW PH Nw Nh. unfold scale. cbv zeta.
  destruct (Qeq_bool (maxRatio F W H width height) 0) eqn:E.
  - split; [reflexivity|].
    apply (ResizeProps.rnd_integer F 1 1); reflexivity.
  - apply Qeq_bool_neq in E.
    pose proof (fdiv_nonneg _ W (nullish_nonneg width Nw) PW) as Rw.
    assert (M : 0 <= maxRatio F W H width height).
    { unfold maxRatio. eapply Qle_trans; [exact Rw|apply Q.le_max_l]. }
    split.
    + apply Qle_lteq in M. destruct M as [M|M]; [exact M|].
      exfalso. apply E. symmetry. exact M.
    + unfold maxRatio.
      destruct (Q.max_dec (fdiv F (Js.nullish width 0) (inject_Z W))
                          (fdiv F (Js.nullish height 0) (inject_Z H))) as [D|D];
        rewrite (rnd_proper F _ _ D), D; apply idem.
Qed.

Lemma scaled_positive (n : Z) (s : Q) :
  (0 < n)%Z -> 0 < s -> rnd F s == s -> (0 < Qceiling (fmul F (inject_Z n) s))%Z.
Proof.
  intros P S Fx. apply ceiling_positive. unfold fmul.
  apply (Qlt_le_trans _ s); [exact S|].
  rewrite <- Fx at 1. apply mono.
  rewrite <- (Qmult_1_l s) at 1.
  apply Qmult_le_compat_r; [|now apply Qlt_le_weak].
  unfold Qle. simpl. lia.
Qed.

(** X21: for an image of positive size and a request whose width and
    height are each absent or not negative, both dimensions handed to the
    resize are at least 1, under any rounding that keeps the order and
    leaves rounded values alone: the encoder never receives an empty
    buffer. *)
Theorem resize_never_yields_an_empty_image (W H : Z) (width height : option Q) :
  (0 < W)%Z -> (0 < H)%Z ->
  absentOrNonNegative width -> absentOrNonNegative height ->
  (1 <= resizeWidth F W H width height)%Z
  /\ (1 <= resizeHeight F W H width height)%Z.
Proof.
  intros PW PH Nw Nh.
  destruct (scale_positive_fixed W H width height PW PH Nw Nh) as [S Fx].
  pose proof (scaled_positive W _ PW S Fx) as A.
  pose proof (scaled_positive H _ PH S Fx) as B.
  unfold resizeWidth, resizeHeight. lia.
Qed.

(** X22: when the decoded image is wider than the target box
    ([imgAspect > targetAspect]), the source rectangle of the cover crop
    spans the full height, starts at a non-negative x and is no wider than
    the image, under any rounding that keeps the order and leaves rounded
    values alone. *)
Theorem cover_crop_stays_inside_a_wider_image (naturalWidth naturalHeight : Z)
    (width height : Q) :
  (0 <= naturalWidth < 2 ^ 53)%Z -> (0 < naturalHeight)%Z ->
  0 <= width -> 0 < height ->
  wider F naturalWidth naturalHeight width height = true ->
  let r := coverSource F naturalWidth naturalHeight width height in
  0 <= srcX r
  /\ srcY r == 0
  /\ 0 <= srcW r
  /\ srcW r <= inject_Z naturalWidth
  /\ srcH r == inject_Z naturalHeight.
Proof.
  intros BW PH Nw Ph Wd. cbv zeta. unfold coverSource. rewrite Wd. simpl.
  set (a := fdiv F width height).
  assert (PHq : 0 < inject_Z naturalHeight) by now apply positive_integer.
  assert (A0 : 0 <= a).
  { unfold a, fdiv. apply rnd_nonneg. apply Qle_shift_div_l; [exact Ph|].
    now rewrite Qmult_0_l. }
  assert (Afix : rnd F a == a) by (unfold a, fdiv; apply idem).
  assert (Lt : a < fdiv F (inject_Z naturalWidth) (inject_Z naturalHeight)).
  { unfold wider in Wd. fold a in Wd.
    apply Qnot_le_lt. intro L. apply Qle_bool_iff in L. rewrite L in Wd.
    discriminate Wd. }
  assert (Le : a <= inject_Z naturalWidth / inject_Z naturalHeight).
  { destruct (Qlt_le_dec (inject_Z naturalWidth / inject_Z naturalHeight) a)
      as [G|G]; [|exact G].
    exfalso. apply (Qlt_irrefl a). eapply Qlt_le_trans; [exact Lt|].
    rewrite <- Afix. apply mono. now apply Qlt_le_weak. }
  assert (Wl : fmul F (inject_Z naturalHeight) a <= inject_Z naturalWidth).
  { unfold fmul.
    rewrite <- (ResizeProps.rnd_integer F (inject_Z naturalWidth) naturalWidth)
      by (try lia; reflexivity).
    apply mono.
    assert (E : inject_Z naturalWidth
                == inject_Z naturalHeight
                   * (inject_Z naturalWidth / inject_Z naturalHeight)).
    { field. intro Z0. rewrite Z0 in PHq. now apply Qlt_irrefl in PHq. }
    apply (Qle_trans _ (inject_Z naturalHeight
                        * (inject_Z naturalWidth / inject_Z naturalHeight)));
      [apply Qmult_le_l; assumption|].
    rewrite <- E. apply Qle_refl. }
  assert (W0 : 0 <= fmul F (inject_Z naturalHeight) a).
  { unfold fmul. apply rnd_nonneg. apply Qmult_le_0_compat;
      [now apply Qlt_le_weak|exact A0]. }
  repeat split; try assumption; try reflexivity.
  unfold fdiv, fsub. apply rnd_nonneg.
  apply Qle_shift_div_l; [reflexivity|]. rewrite Qmult_0_l.
  apply rnd_nonneg. unfold Qminus. rewrite <- Qle_minus_iff. exact Wl.
Qed.

End Arithmetic.

(** A 1x1 image requested with [width=0.4] comes out 1x1. *)
Lemma resize_never_yields_an_empty_image_witness :
  (1 <= resizeWidth exact 1 1 (Some (2 # 5)) None)%Z.
Proof.
  refine (proj1 (resize_never_yields_an_empty_image exact exact_monotone
                   exact_idempotent 1 1 (Some (2 # 5)) None _ _ _ _)).
  - reflexivity.
  - reflexivity.
  - simpl. discriminate.
  - exact I.
Defined.

(** A 400x200 image drawn into a square box: the crop is the middle
    200x200. *)
Lemma cover_crop_stays_inside_a_wider_image_witness :
  srcW (coverSource exact 400 200 (100 # 1) (100 # 1)) <= inject_Z 400.
Proof.
  refine (proj1 (proj2 (proj2 (proj2
    (cover_crop_stays_inside_a_wider_image exact exact_monotone exact_idempotent
       400 200 (100 # 1) (100 # 1) _ _ _ _ _))))).
  - split; [discriminate|reflexivity].
  - reflexivity.
  - discriminate.
  - reflexivity.
  - reflexivity.
Defined.

End ArithmeticExtra.

(* ------------------------------------------------------------------ *)
(** ** The answers of the route under the two stages                   *)
(* ------------------------------------------------------------------ *)

Module PipelineProps.
Import ImageApp Pipeline.

Lemma answer_content_type (env : Env) (clock : Clock) (cache : ImageCache.Cache)
    (req : Request) (r : Response) :
  plainNumerals env -> reachable env cache -> validRequest req ->
  fst (imageApp env clock cache req) = Respond r ->
  status r = 200
  /\ exists mime,
       Headers.get "Content-Type" (headers r) = Some mime
       /\ Js.startsWith mime "image/" = true.
Proof.
  intros P R V O.
  pose proof (RouteExtra.imageApp_cases env clock cache req) as C. cbv zeta in C.
  rewrite O in C.
  destruct C as [[F _]|[S [[b [Ew [_ Eo]]]|[[cached [L [_ Eo]]]|[[b [Nw [_ Eo]]]
                 |[p [ob [rest [rb [_ [_ [_ [Eo _]]]]]]]]]]]]];
    [destruct F| | | |]; injection Eo as ->; (split; [reflexivity|]);
    cbn [headers].
  - exists "image/webp". now split.
  - exists (ImageCache.mimeType cached).
    rewrite RouteExtra.get_other_negotiated by (simpl; discriminate).
    split; [reflexivity|].
    rewrite (RouteExtra.reachable_typed env P cache R req _ cached V S
               (RouteExtra.lookup_get _ _ _ _ L)).
    now apply RouteExtra.mime_is_image.
  - exists (IMAGE_MIME_TYPE (negotiateFormat env req)).
    split; [reflexivity|now apply RouteExtra.mime_is_image].
  - exists (IMAGE_MIME_TYPE (negotiateFormat env req)).
    rewrite RouteExtra.get_other_negotiated by (simpl; discriminate).
    split; [reflexivity|now apply RouteExtra.mime_is_image].
Qed.

(** X23: every response that the handler of the route returns, on a cache
    the route can reach, has status 200, goes through the compression stage
    with its body untouched, whatever the [Accept-Encoding], and leaves the
    cache-control stage with the long-lived public directive, whatever the
    URL.  The error answers (404, 500, 501) are thrown, not returned, and
    are not covered: they carry no image media type. *)
Theorem route_answers_pass_the_stages_uncompressed (env : Env)
    (encoding : option string -> list string -> string)
    (zstdCompress : bytes -> Z -> bytes)
    (acceptEncoding : option string) (url : string)
    (clock : Clock) (cache : ImageCache.Cache) (req : Request) (r : Response) :
  plainNumerals env -> reachable env cache -> validRequest req ->
  fst (imageApp env clock cache req) = Respond r ->
  status r = 200
  /\ Compress.compressMiddleware encoding zstdCompress acceptEncoding (toHttp r)
     = Compress.markNoTransform (toHttp r)
  /\ Http.body (Compress.compressMiddleware encoding zstdCompress acceptEncoding
                  (toHttp r)) = Some [body r]
  /\ Headers.get "Cache-Control"
       (Http.headers (CacheControl.cacheControlMiddleware url (toHttp r)))
     = Some "public, max-age=31536000, immutable".
Proof.
  intros P R V O.
  destruct (answer_content_type env clock cache req r P R V O)
    as [St [mime [G I]]].
  split; [exact St|].
  assert (T : Compress.contentTypeOf (toHttp r) = mime).
  { unfold Compress.contentTypeOf, toHttp. cbn [Http.headers]. rewrite G.
    apply StagesExtra.orElse_some_empty. }
  assert (E : Compress.compressMiddleware encoding zstdCompress acceptEncoding
                (toHttp r) = Compress.markNoTransform (toHttp r)).
  { rewrite StagesExtra.compress_cases, T, I.
    now rewrite orb_true_r. }
  split; [exact E|]. split; [now rewrite E|].
  unfold CacheControl.cacheControlMiddleware, Http.withHeaders.
  cbn [Http.headers]. rewrite HeadersProps.header_get_set. f_equal.
  unfold CacheControl.directive.
  fold (Compress.contentTypeOf (toHttp r)). rewrite T, I. reflexivity.
Qed.

(** The hit on the warm cache is not compressed for a client that accepts
    zstd. *)
Lemma route_answers_pass_the_stages_uncompressed_witness :
  Http.body
    (Compress.compressMiddleware Samples.stubEncoding Samples.stubZstd
       (Some "zstd")
       (toHttp (mkResponse 200
                  [("content-type", "image/png"); ("x-cache", "HIT")]
                  Samples.encoded)))
  = Some [Samples.encoded].
Proof.
  refine (proj1 (proj2 (proj2
    (route_answers_pass_the_stages_uncompressed Samples.env
       Samples.stubEncoding Samples.stubZstd (Some "zstd")
       "https://example.test/images/abc.png?width=100&height=50"
       (Samples.at_ 1005) Samples.warm Samples.resized _
       RouteProps.samples_plainNumerals RouteProps.samples_warm_reachable _ _)))).
  - reflexivity.
  - reflexivity.
Defined.

End PipelineProps.
